(** * xrectsel: the region selector and the format renderer

    A shallow embedding of [xrectsel.c].  The C code is modelled with
    explicit machine arithmetic ([int] and [unsigned int] are 32 bits wide),
    the format string as a character cursor into a NUL-terminated string,
    standard output as an accumulated string, and the X server as the list
    of events it will deliver together with a trace of the requests the
    client sends to it. *)

From Stdlib Require Import ZArith List String Ascii Bool Lia.
From Stdlib Require Import DecimalString.
From Stdlib Require DecimalN.
Import ListNotations.

Local Open Scope Z_scope.
Local Open Scope string_scope.

(** ** Machine integers *)

Section MachineIntegers.

(** [unsigned int] arithmetic is arithmetic modulo 2^32. *)
Definition wrap_uint (z : Z) : Z := z mod 2 ^ 32.

(** Conversion to [int]: the two's complement reading of the low 32 bits.
    Signed overflow (undefined in ISO C) is given this wrap-around
    meaning as well, which is what the compiled program does. *)
Definition wrap_int (z : Z) : Z := (z + 2 ^ 31) mod 2 ^ 32 - 2 ^ 31.

Definition is_uint (z : Z) : Prop := 0 <= z < 2 ^ 32.
Definition is_int (z : Z) : Prop := - 2 ^ 31 <= z < 2 ^ 31.

(** The ranges the X11 protocol gives to coordinates (INT16) and to
    window sizes (CARD16). *)
Definition is_int16 (z : Z) : Prop := - 2 ^ 15 <= z < 2 ^ 15.
Definition is_card16 (z : Z) : Prop := 0 <= z < 2 ^ 16.

End MachineIntegers.

(** ** The region record *)

Record Region : Type := mkRegion {
  root : Z;  (* Window *)
  x : Z;     (* int: offset from left of screen *)
  y : Z;     (* int: offset from top of screen *)
  X : Z;     (* int: offset from right of screen *)
  Y : Z;     (* int: offset from bottom of screen *)
  w : Z;     (* unsigned int: width *)
  h : Z;     (* unsigned int: height *)
  b : Z;     (* unsigned int: border_width *)
  d : Z      (* unsigned int: depth *)
}.

(** ** Formatted output *)

Section Printing.

(** [printf("%u", value)] and [printf("%i", value)]. *)
Definition printf_u (value : Z) : string :=
  NilZero.string_of_uint (N.to_uint (Z.to_N value)).

Definition printf_i (value : Z) : string :=
  NilZero.string_of_int (Z.to_int value).

(** The macro [ROUND] at [unsigned int value]: both operands are
    unsigned. *)
Definition ROUND_u (value rounding : Z) : Z :=
  if (0 <? rounding)%Z
  then wrap_uint (Z.quot value rounding * rounding)
  else value.

(** The macro [ROUND] at [int value]: [rounding] is unsigned, so the
    usual arithmetic conversions turn [value] into an [unsigned int]
    before the division, and the product is converted back on
    assignment. *)
Definition ROUND_i (value rounding : Z) : Z :=
  if (0 <? rounding)%Z
  then wrap_int (wrap_uint (Z.quot (wrap_uint value) rounding * rounding))
  else value.

Definition round_and_printu (value rounding : Z) : string :=
  printf_u (ROUND_u value rounding).

Definition round_and_printi (value rounding : Z) : string :=
  printf_i (ROUND_i value rounding).

End Printing.

(** ** Scanning the format string *)

(** How a call that may leave the program ends. *)
Inductive die_reason : Type :=
| NoMatching (stop_character : ascii)   (* "No matching %c found" *)
| UnexpectedCharacter (c : ascii).      (* "Unexpected character %c\n" *)

Inductive outcome (A : Type) : Type :=
| Ok (a : A)
| Die (e : die_reason)     (* error(...) followed by exit(EXIT_FAILURE) *)
| OutOfBounds.             (* a read beyond the terminating NUL *)

Arguments Ok {A} a.
Arguments Die {A} e.
Arguments OutOfBounds {A}.

Section Cursor.

Definition NUL : ascii := Ascii.zero.

(** A [const char *] into the format string is the suffix it points at;
    the empty suffix is the position of the terminating NUL. *)
Definition deref (s : string) : ascii :=
  match s with
  | EmptyString => NUL
  | String c _ => c
  end.

(** [++s]; there is nothing to read after the terminator. *)
Definition incr (s : string) : option string :=
  match s with
  | EmptyString => None
  | String _ s' => Some s'
  end.

Definition is_digit (c : ascii) : bool :=
  negb ((c <? "0")%char || ("9" <? c)%char).

Definition char_code (c : ascii) : Z := Z.of_N (N_of_ascii c).

End Cursor.

(** The text [error] writes to standard error. *)
Definition errstr (e : die_reason) : string :=
  "xrectsel: " ++
  match e with
  | NoMatching stop_character =>
      "No matching " ++ String stop_character " found"
  | UnexpectedCharacter c =>
      "Unexpected character " ++ String c (String "010"%char "")
  end.

(** The loop of [read_uint_until]: [s] is the cursor before [++s]. *)
Fixpoint read_uint_loop (s : string) (stop_character : ascii) (value : Z)
  : outcome (Z * string) :=
  match s with
  | EmptyString => OutOfBounds
  | String _ s1 =>
      let c := deref s1 in
      if (c =? stop_character)%char then Ok (value, s1)
      else if (c =? NUL)%char then Die (NoMatching stop_character)
      else if negb (is_digit c) then Die (UnexpectedCharacter c)
      else
        let num := char_code c - char_code "0" in
        let value := if (value =? 0)%Z then value else wrap_uint (value * 10) in
        read_uint_loop s1 stop_character (wrap_uint (value + num))
  end.

(** [read_uint_until(&s, stop_character)]: the value read and the new
    cursor, which points at the stop character. *)
Definition read_uint_until (s : string) (stop_character : ascii)
  : outcome (Z * string) :=
  read_uint_loop s stop_character 0.

(** The [switch] of [print_region_attr]: what the selector character
    prints. *)
Definition print_field (c : ascii) (region : Region) (rounding : Z) : string :=
  if (c =? "%")%char then "%"
  else if (c =? "x")%char then round_and_printi (x region) rounding
  else if (c =? "y")%char then round_and_printi (y region) rounding
  else if (c =? "X")%char then round_and_printi (X region) rounding
  else if (c =? "Y")%char then round_and_printi (Y region) rounding
  else if (c =? "w")%char then round_and_printu (w region) rounding
  else if (c =? "h")%char then round_and_printu (h region) rounding
  else if (c =? "b")%char then round_and_printu (b region) rounding
  else if (c =? "d")%char then round_and_printu (d region) rounding
  else "".

(** How [print_region_attr] ends: it returns, the process exits inside
    [die], or the cursor is read beyond the end of the format string. *)
Inductive termination : Type :=
| Returned (status : Z)
| Exited (e : die_reason)
| ReadPastEnd.

(** The body of the [for] loop at a cursor with [*s != 0]: the text on
    standard output afterwards and the cursor before the loop's [++s]. *)
Definition print_step (s : string) (region : Region) (out : string)
  : string * outcome string :=
  if (deref s =? "%")%char then
    match incr s with
    | None => (out, OutOfBounds)
    | Some s1 =>
        if (deref s1 =? "[")%char then
          match read_uint_until s1 "]" with
          | Ok (rounding, s2) =>
              match incr s2 with
              | None => (out, OutOfBounds)
              | Some s3 => (out ++ print_field (deref s3) region rounding, Ok s3)
              end
          | Die e => (out, Die e)
          | OutOfBounds => (out, OutOfBounds)
          end
        else (out ++ print_field (deref s1) region 0, Ok s1)
    end
  else (out ++ String (deref s) "", Ok s).

(** The [for] loop.  Every iteration moves the cursor forward, so the
    number of iterations is bounded by the length of the string; [fuel]
    is that bound. *)
Fixpoint print_loop (fuel : nat) (s : string) (region : Region) (out : string)
  : option (string * termination) :=
  match fuel with
  | O => None
  | S fuel' =>
      if (deref s =? NUL)%char then Some (out, Returned 0)
      else
        match print_step s region out with
        | (out', Ok s') =>
            match incr s' with
            | None => Some (out', ReadPastEnd)
            | Some s'' => print_loop fuel' s'' region out'
            end
        | (out', Die e) => Some (out', Exited e)
        | (out', OutOfBounds) => Some (out', ReadPastEnd)
        end
  end.

(** [print_region_attr(fmt, region)], started with nothing on standard
    output. *)
Definition print_region_attr (fmt : string) (region : Region)
  : option (string * termination) :=
  print_loop (S (String.length fmt)) fmt region "".

(** The loop started at cursor [s] with [out] already written; the fuel
    is the bound above. *)
Definition print_from (s : string) (region : Region) (out : string)
  : option (string * termination) :=
  print_loop (S (String.length s)) s region out.

(** The characters the [switch] has a case for. *)
Definition field_selectors : list ascii :=
  ["%"; "x"; "y"; "X"; "Y"; "w"; "h"; "b"; "d"]%char.

(** Strings of decimal digits, and the value [read_uint_until] builds
    from them starting at [value]. *)
Fixpoint digits (s : string) : bool :=
  match s with
  | EmptyString => true
  | String c s' => is_digit c && digits s'
  end.

Fixpoint uint_of_digits (value : Z) (s : string) : Z :=
  match s with
  | EmptyString => value
  | String c s' =>
      uint_of_digits
        (wrap_uint ((if (value =? 0)%Z then value else wrap_uint (value * 10))
                    + (char_code c - char_code "0")))
        s'
  end.

(** A format string as a C string holds no NUL character. *)
Fixpoint nul_free (s : string) : bool :=
  match s with
  | EmptyString => true
  | String c s' => negb (c =? NUL)%char && nul_free s'
  end.

(** The rounding the specification describes: truncating division in the
    field's own signedness. *)
Definition spec_round (value rounding : Z) : Z :=
  if (0 <? rounding)%Z then Z.quot value rounding * rounding else value.

(** ** The interactive selection *)

Local Close Scope string_scope.
Local Open Scope list_scope.

(** An event as the [switch (ev.type)] of [select_region] tells events
    apart: the three types it has a case for, with the root coordinates
    it reads from them, and [OtherEvent] for an event of any other type,
    which takes the [default] case. *)
Inductive XEvent : Type :=
| ButtonPress (x_root y_root : Z)
| MotionNotify (x_root y_root : Z)
| ButtonRelease (x_root y_root : Z)
| OtherEvent.

(** The Xlib calls [select_region] makes that reach the server, in the
    order it makes them. *)
Inductive XRequest : Type :=
| XCreateFontCursor (shape : Z)
| XGrabPointer
| XCreateGC
| XDrawRectangle (x y : Z) (width height : Z)
| XFlush
| XUngrabPointer
| XFreeCursor
| XFreeGC
| XSync
| XGetGeometry.

(** What the server will answer: the status of the grab, the events it
    delivers to [XNextEvent], and the root geometry ([None] when
    [XGetGeometry] fails). *)
Record XServer : Type := mkXServer {
  grab_status : Z;
  events : list XEvent;
  geometry : option Region
}.

Definition GrabSuccess : Z := 0.
Definition XC_tcross : Z := 130.
Definition EXIT_SUCCESS : Z := 0.
Definition EXIT_FAILURE : Z := 1.

(** The automatic variables of [select_region] that the loop updates;
    [cur_x] and [cur_y] are the C variables [x] and [y]. *)
Record locals : Type := mkLocals {
  done : bool;
  btn_pressed : bool;
  cur_x : Z;
  cur_y : Z;
  width : Z;
  height : Z;
  start_x : Z;
  start_y : Z
}.

Definition initial_locals : locals :=
  mkLocals false false 0 0 0 0 0 0.

(** One pass through the [switch (ev.type)]: the new variables and the
    requests sent.  [OtherEvent] is the [default] case. *)
Definition select_step (ev : XEvent) (l : locals) : locals * list XRequest :=
  match ev with
  | ButtonPress ex ey =>
      (mkLocals (done l) true ex ey 0 0 ex ey, [])
  | MotionNotify ex ey =>
      if btn_pressed l then
        let erase := XDrawRectangle (cur_x l) (cur_y l) (width l) (height l) in
        let '(x', width') :=
          if ex >? start_x l
          then (start_x l, wrap_uint (wrap_int (ex - start_x l)))
          else (ex, wrap_uint (wrap_int (start_x l - ex))) in
        let '(y', height') :=
          if ey >? start_y l
          then (start_y l, wrap_uint (wrap_int (ey - start_y l)))
          else (ey, wrap_uint (wrap_int (start_y l - ey))) in
        (mkLocals (done l) (btn_pressed l) x' y' width' height'
                  (start_x l) (start_y l),
         [erase; XDrawRectangle x' y' width' height'; XFlush])
      else (l, [])
  | ButtonRelease _ _ =>
      (mkLocals true (btn_pressed l) (cur_x l) (cur_y l) (width l) (height l)
                (start_x l) (start_y l), [])
  | OtherEvent => (l, [])
  end.

(** The [for (;;)] loop over the delivered events.  With no event left
    [XNextEvent] blocks for ever: there is no result. *)
Fixpoint event_loop (evs : list XEvent) (l : locals) (trace : list XRequest)
  : option (locals * list XEvent * list XRequest) :=
  match evs with
  | [] => None
  | ev :: rest =>
      let '(l', reqs) := select_step ev l in
      if done l' then Some (l', rest, trace ++ reqs)
      else event_loop rest l' (trace ++ reqs)
  end.

(** What a call of [select_region] leaves behind. *)
Record selection : Type := mkSelection {
  status : Z;                  (* the value returned *)
  region_out : Region;         (* the object [region] points to *)
  requests : list XRequest;    (* everything sent to the server *)
  pending : list XEvent;       (* events not read *)
  stderr : string
}.

(** [select_region(dpy, root, region)]: [region] is what the out-parameter
    holds at entry and [sr_uninit] the indeterminate contents of the
    automatic variable [sr], whose [root] member is never assigned. *)
Definition select_region (server : XServer) (region sr_uninit : Region)
  : option selection :=
  let trace := [XCreateFontCursor XC_tcross; XGrabPointer] in
  if negb (grab_status server =? GrabSuccess)%Z then
    Some (mkSelection EXIT_FAILURE region trace (events server)
            ("xrectsel: failed to grab pointer" ++ String "010"%char "")%string)
  else
    match event_loop (events server) initial_locals (trace ++ [XCreateGC]) with
    | None => None
    | Some (l, rest, trace) =>
        let trace :=
          trace ++ [XDrawRectangle (cur_x l) (cur_y l) (width l) (height l);
                    XFlush; XUngrabPointer; XFreeCursor; XFreeGC; XSync;
                    XGetGeometry] in
        match geometry server with
        | None =>
            Some (mkSelection EXIT_FAILURE region trace rest
                    ("xrectsel: failed to get root window geometry"
                     ++ String "010"%char "")%string)
        | Some rr =>
            let sr_x := cur_x l in
            let sr_y := cur_y l in
            let sr_w := width l in
            let sr_h := height l in
            let sr_X := wrap_int (wrap_uint (wrap_uint (w rr - wrap_uint sr_x) - sr_w)) in
            let sr_Y := wrap_int (wrap_uint (wrap_uint (h rr - wrap_uint sr_y) - sr_h)) in
            let sr := mkRegion (root sr_uninit) sr_x sr_y sr_X sr_Y sr_w sr_h
                               (b rr) (d rr) in
            Some (mkSelection EXIT_SUCCESS sr trace rest ""%string)
        end
    end.

(** The rectangles drawn, in order, and how often one of them is drawn. *)
Fixpoint draws (trace : list XRequest) : list (Z * Z * Z * Z) :=
  match trace with
  | [] => []
  | XDrawRectangle rx ry rw rh :: rest => (rx, ry, rw, rh) :: draws rest
  | _ :: rest => draws rest
  end.

Definition rect_eqb (r1 r2 : Z * Z * Z * Z) : bool :=
  let '(x1, y1, w1, h1) := r1 in
  let '(x2, y2, w2, h2) := r2 in
  (x1 =? x2)%Z && (y1 =? y2)%Z && (w1 =? w2)%Z && (h1 =? h2)%Z.

Definition count_draws (r : Z * Z * Z * Z) (trace : list XRequest) : nat :=
  List.length (filter (rect_eqb r) (draws trace)).

(** The rectangle the loop tracks. *)
Definition tracked (l : locals) : Z * Z * Z * Z :=
  (cur_x l, cur_y l, width l, height l).

Definition event_in_protocol_range (ev : XEvent) : Prop :=
  match ev with
  | ButtonPress ex ey | MotionNotify ex ey | ButtonRelease ex ey =>
      is_int16 ex /\ is_int16 ey
  | OtherEvent => True
  end.

Definition is_release (ev : XEvent) : bool :=
  match ev with
  | ButtonRelease _ _ => true
  | _ => false
  end.

(** ** Sample data *)

Definition example_region : Region :=
  mkRegion 0 10 20 1810 1010 100 50 0 24.

(** A region 47 wide whose left edge is 47 to the left of the origin. *)
Definition region_47 : Region :=
  mkRegion 0 (-47) 20 1920 1010 47 50 0 24.

(** Whether a character occurs in a string. *)
Fixpoint has_char (c : ascii) (s : string) : bool :=
  match s with
  | EmptyString => false
  | String c' s' => (c' =? c)%char || has_char c s'
  end.

(** The variables of the loop within the ranges of the X11 protocol. *)
Definition protocol_locals (l : locals) : Prop :=
  is_int16 (cur_x l) /\ is_int16 (cur_y l) /\
  is_int16 (start_x l) /\ is_int16 (start_y l) /\
  is_card16 (width l) /\ is_card16 (height l).

(** A press at the anchor followed by one motion to the pointer
    position. *)
Definition drag (l : locals) (anchor_x anchor_y pointer_x pointer_y : Z)
  : locals :=
  fst (select_step (MotionNotify pointer_x pointer_y)
         (fst (select_step (ButtonPress anchor_x anchor_y) l))).

Definition root_1920x1080 : Region := mkRegion 1 0 0 0 0 1920 1080 0 24.

Definition zero_region : Region := mkRegion 0 0 0 0 0 0 0 0 0.

(** A drag, a second press while the outline is on the screen, and the
    release. *)
Definition repress_server : XServer :=
  mkXServer GrabSuccess
    [ButtonPress 10 10; MotionNotify 20 20; ButtonPress 50 50;
     ButtonRelease 50 50]
    (Some root_1920x1080).

(** A drag from (300, 200) up and to the left to (100, 50). *)
Definition drag_server : XServer :=
  mkXServer GrabSuccess
    [OtherEvent; ButtonPress 300 200; MotionNotify 250 120;
     MotionNotify 100 50; ButtonRelease 100 50]
    (Some root_1920x1080).

(** A server whose pointer is grabbed by another client
    ([AlreadyGrabbed]). *)
Definition busy_server : XServer :=
  mkXServer 1 [ButtonPress 10 10; ButtonRelease 10 10] (Some root_1920x1080).

(** ** Notions used to describe the renderer *)

Local Open Scope string_scope.

(** The number a decimal numeral denotes, read from the left with
    [value] already read. *)
Fixpoint decimal_value (value : Z) (s : string) : Z :=
  match s with
  | EmptyString => value
  | String c s' =>
      decimal_value (value * 10 + (char_code c - char_code "0")) s'
  end.

(** Text without a percent sign and without a NUL. *)
Fixpoint literal (s : string) : bool :=
  match s with
  | EmptyString => true
  | String c s' => negb (c =? "%")%char && negb (c =? NUL)%char && literal s'
  end.

(** A result with [out] put in front of its output. *)
Definition prepend (out : string) (res : option (string * termination))
  : option (string * termination) :=
  match res with
  | Some (o, t) => Some (out ++ o, t)
  | None => None
  end.

(** The format [main] uses when it is given no argument. *)
Definition default_fmt : string := "%wx%h+%x+%y" ++ String "010"%char "".

Local Close Scope string_scope.

(** ** Notions used to describe the selection *)

(** The events delivered before the first release, and those after it. *)
Fixpoint until_release (evs : list XEvent) : list XEvent :=
  match evs with
  | [] => []
  | ev :: rest => if is_release ev then [] else ev :: until_release rest
  end.

Fixpoint after_release (evs : list XEvent) : list XEvent :=
  match evs with
  | [] => []
  | ev :: rest => if is_release ev then rest else after_release rest
  end.

(** Passes through the [switch], one event after the other. *)
Fixpoint run_steps (evs : list XEvent) (l : locals) : locals * list XRequest :=
  match evs with
  | [] => (l, [])
  | ev :: rest =>
      let '(l1, reqs1) := select_step ev l in
      let '(l2, reqs2) := run_steps rest l1 in
      (l2, reqs1 ++ reqs2)
  end.

(** The variables after the [ButtonRelease] case. *)
Definition released (l : locals) : locals :=
  mkLocals true (btn_pressed l) (cur_x l) (cur_y l) (width l) (height l)
           (start_x l) (start_y l).

Definition is_press (ev : XEvent) : bool :=
  match ev with
  | ButtonPress _ _ => true
  | _ => false
  end.

(** The pointer positions of the motion events. *)
Fixpoint motions (evs : list XEvent) : list (Z * Z) :=
  match evs with
  | [] => []
  | MotionNotify ex ey :: rest => (ex, ey) :: motions rest
  | _ :: rest => motions rest
  end.

(** The rectangle spanned by an anchor and a pointer position. *)
Definition normalized_rect (ax ay : Z) (p : Z * Z) : Z * Z * Z * Z :=
  (Z.min ax (fst p), Z.min ay (snd p), Z.abs (fst p - ax), Z.abs (snd p - ay)).

Definition event_is_int (ev : XEvent) : Prop :=
  match ev with
  | ButtonPress ex ey | MotionNotify ex ey | ButtonRelease ex ey =>
      is_int ex /\ is_int ey
  | OtherEvent => True
  end.

Definition is_draw_or_flush (r : XRequest) : bool :=
  match r with
  | XDrawRectangle _ _ _ _ | XFlush => true
  | _ => false
  end.

(** The requests before the loop and those after it, for a loop that
    ends tracking the rectangle [r]. *)
Definition setup_requests : list XRequest :=
  [XCreateFontCursor XC_tcross; XGrabPointer; XCreateGC].

Definition teardown_requests (r : Z * Z * Z * Z) : list XRequest :=
  let '(rx, ry, rw, rh) := r in
  [XDrawRectangle rx ry rw rh; XFlush; XUngrabPointer; XFreeCursor; XFreeGC;
   XSync; XGetGeometry].

(** The geometry of a selected region. *)
Definition geometry_of (r : Region) : Z * Z * Z * Z := (x r, y r, w r, h r).

(** ** The program *)

Local Open Scope string_scope.

(** What [main] finds: the server [XOpenDisplay(NULL)] connects to
    ([None] when it returns a null pointer), the value of the environment
    variable [DISPLAY] ([None] when [getenv] returns a null pointer), and
    the argument vector, whose length is [argc]. *)
Record environment : Type := mkEnvironment {
  display : option XServer;
  DISPLAY : option string;
  argv : list string
}.

(** How the process ends: its exit status ([None] when the behaviour is
    undefined), what it wrote, whether [XCloseDisplay] was called, and
    the requests [select_region] sent. *)
Record process : Type := mkProcess {
  exit_status : option Z;
  proc_stdout : string;
  proc_stderr : string;
  display_closed : bool;
  proc_requests : list XRequest
}.

(** [argc > 1 ? argv[1] : "%wx%h+%x+%y\n"]. *)
Definition format_of (argv : list string) : string :=
  if (1 <? Z.of_nat (List.length argv))%Z then nth 1 argv "" else default_fmt.

(** [main(argc, argv)]: [sr] is the indeterminate content of its automatic
    variable [sr], [sr_uninit] that of the one of [select_region].  There
    is no result when [select_region] never returns. *)
Definition main (env : environment) (sr sr_uninit : Region) : option process :=
  match display env with
  | None =>
      match DISPLAY env with
      | None => Some (mkProcess None "" "xrectsel: " false [])
      | Some name =>
          Some (mkProcess (Some EXIT_FAILURE) ""
                  ("xrectsel: failed to open display " ++ name
                   ++ String "010"%char "")
                  false [])
      end
  | Some server =>
      let fmt := format_of (argv env) in
      match select_region server sr sr_uninit with
      | None => None
      | Some sel =>
          if negb (status sel =? EXIT_SUCCESS)%Z then
            Some (mkProcess (Some EXIT_FAILURE) ""
                    (stderr sel
                     ++ "xrectsel: failed to select a rectangular region"
                     ++ String "010"%char "")
                    true (requests sel))
          else
            match print_region_attr fmt (region_out sel) with
            | None => None
            | Some (out, Returned _) =>
                Some (mkProcess (Some EXIT_SUCCESS) out (stderr sel) true
                        (requests sel))
            | Some (out, Exited e) =>
                Some (mkProcess (Some EXIT_FAILURE) out
                        (stderr sel ++ errstr e) false (requests sel))
            | Some (out, ReadPastEnd) =>
                Some (mkProcess None out (stderr sel) false (requests sel))
            end
      end
  end.

(** The text of the default format for a region. *)
Definition default_text (r : Region) : string :=
  printf_u (w r) ++ "x" ++ printf_u (h r) ++ "+" ++ printf_i (x r) ++ "+"
  ++ printf_i (y r) ++ String "010"%char "".

Local Close Scope string_scope.

(** * Properties *)

Local Open Scope string_scope.

(** ** The scanner terminates *)

Section ScannerFuel.

Variable region : Region.

Lemma read_uint_loop_shorter (s : string) :
  forall stop value value' s2,
    read_uint_loop s stop value = Ok (value', s2) ->
    (String.length s2 < String.length s)%nat.
Proof.
  induction s as [|c0 s1 IH]; intros stop value value' s2; simpl.
  - discriminate.
  - destruct (deref s1 =? stop)%char.
    + intros E; injection E as _ <-. lia.
    + destruct (deref s1 =? NUL)%char; [discriminate|].
      destruct (negb (is_digit (deref s1))); [discriminate|].
      intros E. apply IH in E. lia.
Qed.

Lemma incr_length (s s' : string) :
  incr s = Some s' -> String.length s = S (String.length s').
Proof. destruct s; simpl; [discriminate|]. intros E; injection E as <-. reflexivity. Qed.

Lemma print_step_shorter (s out out' s' s'' : string) :
  print_step s region out = (out', Ok s') ->
  incr s' = Some s'' ->
  (String.length s'' < String.length s)%nat.
Proof.
  unfold print_step.
  destruct (deref s =? "%")%char.
  - destruct (incr s) as [s1|] eqn:E1; [|discriminate].
    apply incr_length in E1.
    destruct (deref s1 =? "[")%char.
    + unfold read_uint_until.
      destruct (read_uint_loop s1 "]" 0) as [[rounding s2]| |] eqn:E2;
        try discriminate.
      apply read_uint_loop_shorter in E2.
      destruct (incr s2) as [s3|] eqn:E3; [|discriminate].
      apply incr_length in E3.
      intros E; injection E as _ <-. intros E4; apply incr_length in E4. lia.
    + intros E; injection E as _ <-. intros E4; apply incr_length in E4. lia.
  - intros E; injection E as _ <-. intros E4; apply incr_length in E4. lia.
Qed.

(** Any fuel above the length of the string gives the same run. *)
Lemma print_loop_fuel (n : nat) :
  forall m s out,
    (String.length s < n)%nat -> (String.length s < m)%nat ->
    print_loop n s region out = print_loop m s region out.
Proof.
  induction n as [|n IH]; intros m s out Hn Hm; [lia|].
  destruct m as [|m]; [lia|]. simpl.
  destruct (deref s =? NUL)%char; [reflexivity|].
  destruct (print_step s region out) as [out' [s'| |]] eqn:E; try reflexivity.
  destruct (incr s') as [s''|] eqn:E'; [|reflexivity].
  pose proof (print_step_shorter _ _ _ _ _ E E').
  apply IH; lia.
Qed.

(** The unfolding equation of the loop, free of fuel. *)
Lemma print_from_eq (s out : string) :
  print_from s region out =
  if (deref s =? NUL)%char then Some (out, Returned 0)
  else
    match print_step s region out with
    | (out', Ok s') =>
        match incr s' with
        | None => Some (out', ReadPastEnd)
        | Some s'' => print_from s'' region out'
        end
    | (out', Die e) => Some (out', Exited e)
    | (out', OutOfBounds) => Some (out', ReadPastEnd)
    end.
Proof.
  unfold print_from at 1. simpl.
  destruct (deref s =? NUL)%char; [reflexivity|].
  destruct (print_step s region out) as [out' [s'| |]] eqn:E; try reflexivity.
  destruct (incr s') as [s''|] eqn:E'; [|reflexivity].
  pose proof (print_step_shorter _ _ _ _ _ E E').
  unfold print_from. apply print_loop_fuel; lia.
Qed.

(** The loop always ends: the fuel never runs out. *)
Lemma print_from_total :
  forall s out, exists res, print_from s region out = Some res.
Proof.
  intros s. remember (String.length s) as n eqn:Hn.
  revert s Hn. induction n as [n IH] using lt_wf_ind. intros s Hn out.
  rewrite print_from_eq.
  destruct (deref s =? NUL)%char; [eauto|].
  destruct (print_step s region out) as [out' [s'| |]] eqn:E; eauto.
  destruct (incr s') as [s''|] eqn:E'; eauto.
  pose proof (print_step_shorter _ _ _ _ _ E E').
  eapply IH; [|reflexivity]. lia.
Qed.

End ScannerFuel.

(** ** The scanner, one directive at a time *)

Section ScannerSteps.

Variable region : Region.

Lemma append_empty_r (s : string) : s ++ "" = s.
Proof. induction s as [|c s IH]; simpl; [reflexivity|now rewrite IH]. Qed.

Lemma append_assoc (s1 s2 s3 : string) : (s1 ++ s2) ++ s3 = s1 ++ (s2 ++ s3).
Proof. induction s1 as [|c s1 IH]; simpl; [reflexivity|now rewrite IH]. Qed.

Lemma length_append (s1 s2 : string) :
  String.length (s1 ++ s2) = (String.length s1 + String.length s2)%nat.
Proof. induction s1 as [|c s1 IH]; simpl; [reflexivity|now rewrite IH]. Qed.

Lemma is_digit_not (c c' : ascii) :
  is_digit c = true -> is_digit c' = false -> (c =? c')%char = false.
Proof.
  intros Hc Hc'. destruct (Ascii.eqb_spec c c') as [->|]; [|reflexivity].
  congruence.
Qed.

(** Reading across a run of digits. *)
Lemma read_uint_loop_digits (ds : string) :
  forall c0 value rest,
    digits ds = true ->
    read_uint_loop (String c0 (ds ++ rest)) "]" value =
    read_uint_loop (String c0 rest) "]" (uint_of_digits value ds).
Proof.
  induction ds as [|c ds IH]; intros c0 value rest Hds; [reflexivity|].
  simpl in Hds. apply andb_true_iff in Hds as [Hc Hds].
  change (read_uint_loop (String c0 (String c ds ++ rest)) "]" value)
    with (let c' := c in
          if (c' =? "]")%char then Ok (value, String c (ds ++ rest))
          else if (c' =? NUL)%char then Die (NoMatching "]")
          else if negb (is_digit c') then Die (UnexpectedCharacter c')
          else read_uint_loop (String c (ds ++ rest)) "]"
                 (wrap_uint ((if (value =? 0)%Z then value
                              else wrap_uint (value * 10))
                             + (char_code c' - char_code "0")))).
  cbv zeta.
  rewrite (is_digit_not c "]" Hc eq_refl), (is_digit_not c NUL Hc eq_refl), Hc.
  simpl negb. cbv iota. rewrite IH by assumption. reflexivity.
Qed.

(** Every string is a run of digits followed by nothing or by a
    character that is not a digit. *)
Lemma clause_split (t : string) :
  exists ds rest,
    t = ds ++ rest /\ digits ds = true /\
    (rest = "" \/ exists c r, rest = String c r /\ is_digit c = false).
Proof.
  induction t as [|c t (ds & rest & -> & Hds & Hrest)].
  - exists "", "". auto.
  - destruct (is_digit c) eqn:Hc.
    + exists (String c ds), rest. simpl. rewrite Hc, Hds. auto.
    + exists "", (String c (ds ++ rest)).
      repeat split; [right]. exists c, (ds ++ rest). auto.
Qed.

Lemma print_from_end (out : string) :
  print_from "" region out = Some (out, Returned 0).
Proof. reflexivity. Qed.

Lemma print_from_literal (c : ascii) (s out : string) :
  c <> NUL -> c <> "%"%char ->
  print_from (String c s) region out =
  print_from s region (out ++ String c "").
Proof.
  intros Hnul Hpct. rewrite print_from_eq. unfold print_step. simpl.
  apply Ascii.eqb_neq in Hnul, Hpct. rewrite Hnul, Hpct. reflexivity.
Qed.

Lemma print_from_percent_end (out : string) :
  print_from "%" region out = Some (out, ReadPastEnd).
Proof. rewrite print_from_eq. simpl. now rewrite append_empty_r. Qed.

Lemma print_from_directive (c : ascii) (s out : string) :
  c <> "["%char ->
  print_from (String "%" (String c s)) region out =
  print_from s region (out ++ print_field c region 0).
Proof.
  intros Hc. rewrite print_from_eq. unfold print_step. simpl.
  apply Ascii.eqb_neq in Hc. rewrite Hc. reflexivity.
Qed.

Lemma print_from_clause_directive (ds : string) (c : ascii) (s out : string) :
  digits ds = true ->
  print_from ("%[" ++ ds ++ String "]" (String c s)) region out =
  print_from s region (out ++ print_field c region (uint_of_digits 0 ds)).
Proof.
  intros Hds. rewrite print_from_eq. unfold print_step, read_uint_until.
  simpl deref. simpl incr. cbv iota beta.
  change (("%" =? NUL)%char) with false.
  change (("%" =? "%")%char) with true.
  change (("[" =? "[")%char) with true. cbv iota.
  rewrite read_uint_loop_digits by assumption. reflexivity.
Qed.

Lemma print_from_clause_end (ds out : string) :
  digits ds = true ->
  print_from ("%[" ++ ds ++ "]") region out = Some (out, ReadPastEnd).
Proof.
  intros Hds. rewrite print_from_eq. unfold print_step, read_uint_until.
  simpl deref. simpl incr. cbv iota beta.
  change (("%" =? NUL)%char) with false.
  change (("%" =? "%")%char) with true.
  change (("[" =? "[")%char) with true. cbv iota.
  rewrite read_uint_loop_digits by assumption. simpl.
  now rewrite append_empty_r.
Qed.

Lemma read_uint_until_unterminated (ds : string) :
  digits ds = true ->
  read_uint_until ("[" ++ ds) "]" = Die (NoMatching "]").
Proof.
  intros Hds. unfold read_uint_until.
  rewrite <- (append_empty_r ds).
  change ("[" ++ ds ++ "") with (String "[" (ds ++ "")).
  rewrite read_uint_loop_digits by assumption. reflexivity.
Qed.

Lemma read_uint_until_unexpected (ds : string) (c : ascii) (rest : string) :
  digits ds = true -> is_digit c = false ->
  c <> "]"%char -> c <> NUL ->
  read_uint_until ("[" ++ ds ++ String c rest) "]" =
  Die (UnexpectedCharacter c).
Proof.
  intros Hds Hc Hstop Hnul. unfold read_uint_until.
  change ("[" ++ ds ++ String c rest) with (String "[" (ds ++ String c rest)).
  rewrite read_uint_loop_digits by assumption. simpl.
  apply Ascii.eqb_neq in Hstop, Hnul. rewrite Hstop, Hnul, Hc. reflexivity.
Qed.

(** A clause that does not parse ends the run with nothing more written. *)
Lemma print_from_clause_die (rest out : string) (e : die_reason) :
  read_uint_until ("[" ++ rest) "]" = Die e ->
  print_from ("%[" ++ rest) region out = Some (out, Exited e).
Proof.
  intros Hread. rewrite print_from_eq. unfold print_step.
  simpl deref. simpl incr. cbv iota beta.
  change (("%" =? NUL)%char) with false.
  change (("%" =? "%")%char) with true.
  change (("[" =? "[")%char) with true. cbv iota.
  change (String "[" rest) with ("[" ++ rest). rewrite Hread. reflexivity.
Qed.

End ScannerSteps.

(** ** Runs over a prefix of the format string *)

Section ScannerPrefix.

Variable region : Region.

Lemma nul_free_app (s1 s2 : string) :
  nul_free (s1 ++ s2) = nul_free s1 && nul_free s2.
Proof.
  induction s1 as [|c s1 IH]; simpl; [reflexivity|].
  now rewrite IH, andb_assoc.
Qed.

Lemma print_from_nul (s out : string) :
  print_from (String NUL s) region out = Some (out, Returned 0).
Proof. rewrite print_from_eq. reflexivity. Qed.

(** What a clause does whose first character after the digits is
    neither a digit nor the closing bracket. *)
Lemma read_uint_until_bad (ds : string) (c : ascii) (rest : string) :
  digits ds = true -> is_digit c = false -> c <> "]"%char ->
  read_uint_until ("[" ++ ds ++ String c rest) "]" =
  Die (if (c =? NUL)%char then NoMatching "]" else UnexpectedCharacter c).
Proof.
  intros Hds Hc Hstop. unfold read_uint_until.
  change ("[" ++ ds ++ String c rest) with (String "[" (ds ++ String c rest)).
  rewrite read_uint_loop_digits by assumption. simpl.
  apply Ascii.eqb_neq in Hstop. rewrite Hstop.
  destruct (c =? NUL)%char; [reflexivity|]. now rewrite Hc.
Qed.

(** A prefix that is scanned to its end is scanned the same way when
    more text follows it. *)
Lemma print_from_app (pre : string) :
  forall out out' suf,
    nul_free pre = true ->
    print_from pre region out = Some (out', Returned 0) ->
    print_from (pre ++ suf) region out = print_from suf region out'.
Proof.
  remember (String.length pre) as n eqn:Hn. revert pre Hn.
  induction n as [n IH] using lt_wf_ind.
  intros [|c p] Hn out out' suf Hnf Hrun.
  - rewrite print_from_end in Hrun. injection Hrun as <-. reflexivity.
  - simpl in Hnf, Hn. apply andb_true_iff in Hnf as [Hc Hp].
    apply negb_true_iff, Ascii.eqb_neq in Hc.
    destruct (Ascii.eqb_spec c "%") as [->|Hpct].
    + destruct p as [|c1 p1].
      { rewrite print_from_percent_end in Hrun. discriminate. }
      destruct (Ascii.eqb_spec c1 "[") as [->|Hbr].
      * destruct (clause_split p1) as (ds & rest & -> & Hds & Hrest).
        destruct Hrest as [->|(c2 & r & -> & Hc2)].
        { change (String "%" (String "[" (ds ++ ""))) with ("%[" ++ ds ++ "") in Hrun.
          rewrite (print_from_clause_die region (ds ++ "") out (NoMatching "]"))
            in Hrun; [discriminate|].
          rewrite append_empty_r. now apply read_uint_until_unterminated. }
        destruct (Ascii.eqb_spec c2 "]") as [->|Hstop].
        -- destruct r as [|c3 r3].
           { change (String "%" (String "[" (ds ++ "]"))) with ("%[" ++ ds ++ "]") in Hrun.
             rewrite print_from_clause_end in Hrun by assumption. discriminate. }
           change (String "%" (String "[" (ds ++ String "]" (String c3 r3))))
             with ("%[" ++ ds ++ String "]" (String c3 r3)) in *.
           rewrite print_from_clause_directive in Hrun by assumption.
           replace (("%[" ++ ds ++ String "]" (String c3 r3)) ++ suf)
             with ("%[" ++ ds ++ String "]" (String c3 (r3 ++ suf)))
             by (simpl; now rewrite append_assoc).
           rewrite print_from_clause_directive by assumption.
           simpl in Hp. rewrite nul_free_app in Hp. simpl in Hp.
           apply andb_true_iff in Hp as [_ Hp].
           apply andb_true_iff in Hp as [_ Hp].
           eapply (IH (String.length r3)); try reflexivity; try assumption.
           simpl in Hn. rewrite length_append in Hn. simpl in Hn. lia.
        -- change (String "%" (String "[" (ds ++ String c2 r)))
             with ("%[" ++ ds ++ String c2 r) in Hrun.
           erewrite print_from_clause_die in Hrun;
             [discriminate|now apply read_uint_until_bad].
      * rewrite print_from_directive in Hrun by assumption.
        simpl. rewrite print_from_directive by assumption.
        simpl in Hp. apply andb_true_iff in Hp as [_ Hp].
        eapply (IH (String.length p1)); try reflexivity; try assumption.
        simpl in Hn. lia.
    + rewrite print_from_literal in Hrun by assumption.
      simpl. rewrite print_from_literal by assumption.
      eapply (IH (String.length p)); try reflexivity; try assumption. lia.
Qed.

(** A run that exits was scanned to the end of the text before some
    directive whose rounding clause does not parse. *)
Lemma print_from_exited (s : string) :
  forall out out' e,
    print_from s region out = Some (out', Exited e) ->
    exists pre rest,
      s = pre ++ "%[" ++ rest /\
      print_from pre region out = Some (out', Returned 0) /\
      read_uint_until ("[" ++ rest) "]" = Die e.
Proof.
  remember (String.length s) as n eqn:Hn. revert s Hn.
  induction n as [n IH] using lt_wf_ind.
  intros [|c p] Hn out out' e Hrun.
  - rewrite print_from_end in Hrun. discriminate.
  - simpl in Hn.
    destruct (Ascii.eqb_spec c NUL) as [->|Hc].
    { rewrite print_from_nul in Hrun. discriminate. }
    destruct (Ascii.eqb_spec c "%") as [->|Hpct].
    + destruct p as [|c1 p1].
      { rewrite print_from_percent_end in Hrun. discriminate. }
      destruct (Ascii.eqb_spec c1 "[") as [->|Hbr].
      * assert (Hdie : forall e',
                   read_uint_until ("[" ++ p1) "]" = Die e' ->
                   exists pre rest,
                     String "%" (String "[" p1) = pre ++ "%[" ++ rest /\
                     print_from pre region out = Some (out', Returned 0) /\
                     read_uint_until ("[" ++ rest) "]" = Die e).
        { intros e' Hread.
          change (String "%" (String "[" p1)) with ("%[" ++ p1) in Hrun.
          rewrite (print_from_clause_die region p1 out e' Hread) in Hrun.
          injection Hrun as <- <-. exists "", p1. auto. }
        destruct (clause_split p1) as (ds & rest & Hp1 & Hds & Hrest).
        destruct Hrest as [->|(c2 & r & -> & Hc2)].
        { apply (Hdie (NoMatching "]")). rewrite Hp1, append_empty_r.
          now apply read_uint_until_unterminated. }
        destruct (Ascii.eqb_spec c2 "]") as [->|Hstop].
        -- subst p1. destruct r as [|c3 r3].
           { change (String "%" (String "[" (ds ++ "]"))) with ("%[" ++ ds ++ "]") in Hrun.
             rewrite print_from_clause_end in Hrun by assumption. discriminate. }
           change (String "%" (String "[" (ds ++ String "]" (String c3 r3))))
             with ("%[" ++ ds ++ String "]" (String c3 r3)) in *.
           rewrite print_from_clause_directive in Hrun by assumption.
           apply (IH (String.length r3)) in Hrun; [|simpl in Hn|reflexivity].
           ++ destruct Hrun as (pre & rest & -> & Hpre & Hread).
              exists ("%[" ++ ds ++ String "]" (String c3 pre)), rest.
              repeat split; [|now rewrite print_from_clause_directive|assumption].
              simpl. now rewrite append_assoc.
           ++ rewrite length_append in Hn. simpl in Hn. lia.
        -- eapply Hdie. rewrite Hp1. now apply read_uint_until_bad.
      * rewrite print_from_directive in Hrun by assumption.
        apply (IH (String.length p1)) in Hrun; [|simpl in Hn; lia|reflexivity].
        destruct Hrun as (pre & rest & -> & Hpre & Hread).
        exists (String "%" (String c1 pre)), rest.
        repeat split; [now rewrite print_from_directive|assumption].
    + rewrite print_from_literal in Hrun by assumption.
      apply (IH (String.length p)) in Hrun; [|lia|reflexivity].
      destruct Hrun as (pre & rest & -> & Hpre & Hread).
      exists (String c pre), rest.
      repeat split; [now rewrite print_from_literal|assumption].
Qed.

End ScannerPrefix.

(** ** Rounding *)

Section Rounding.

Lemma wrap_uint_small (z : Z) : is_uint z -> wrap_uint z = z.
Proof. unfold is_uint, wrap_uint. intros H. now apply Z.mod_small. Qed.

Lemma wrap_int_small (z : Z) : is_int z -> wrap_int z = z.
Proof.
  unfold is_int, wrap_int. intros H. rewrite Z.mod_small; lia.
Qed.

Lemma wrap_int_wrap_uint (z : Z) : wrap_int (wrap_uint z) = wrap_int z.
Proof.
  unfold wrap_int, wrap_uint. now rewrite Zplus_mod_idemp_l.
Qed.

Lemma quot_mul_bounds (value rounding : Z) :
  0 <= value -> 0 < rounding ->
  0 <= Z.quot value rounding * rounding <= value.
Proof.
  intros Hv Hr. rewrite Z.quot_div_nonneg by lia.
  pose proof (Z.mul_div_le value rounding Hr).
  pose proof (Z.div_pos value rounding Hv Hr). nia.
Qed.

(** On an unsigned field the macro computes the rounding of the
    specification. *)
Lemma ROUND_u_spec (value rounding : Z) :
  is_uint value -> ROUND_u value rounding = spec_round value rounding.
Proof.
  unfold ROUND_u, spec_round, is_uint. intros Hv.
  destruct (0 <? rounding)%Z eqn:Hr; [|reflexivity].
  apply Z.ltb_lt in Hr. apply wrap_uint_small.
  pose proof (quot_mul_bounds value rounding). unfold is_uint. lia.
Qed.

(** So it does on a signed field whose value is not negative. *)
Lemma ROUND_i_spec_nonneg (value rounding : Z) :
  is_int value -> 0 <= value ->
  ROUND_i value rounding = spec_round value rounding.
Proof.
  unfold ROUND_i, spec_round, is_int. intros Hv Hpos.
  destruct (0 <? rounding)%Z eqn:Hr; [|reflexivity].
  apply Z.ltb_lt in Hr.
  rewrite (wrap_uint_small value) by (unfold is_uint; lia).
  pose proof (quot_mul_bounds value rounding).
  rewrite wrap_uint_small by (unfold is_uint; lia).
  apply wrap_int_small. unfold is_int. lia.
Qed.

(** On a negative signed value the division is made on the value's
    unsigned conversion. *)
Lemma ROUND_i_negative (value rounding : Z) :
  is_int value -> value < 0 -> 0 < rounding ->
  ROUND_i value rounding =
  wrap_int (Z.quot (value + 2 ^ 32) rounding * rounding).
Proof.
  unfold ROUND_i, is_int. intros Hv Hneg Hr.
  apply Z.ltb_lt in Hr as Hr'. rewrite Hr'.
  rewrite wrap_int_wrap_uint. f_equal. f_equal. f_equal.
  unfold wrap_uint.
  rewrite <- (Z.mod_add value 1 (2 ^ 32)) by lia.
  apply Z.mod_small. lia.
Qed.

(** What the unsigned selectors print is the specification's rounding of
    the field. *)
Lemma print_field_unsigned_spec (region : Region) (rounding : Z) :
  is_uint (w region) -> is_uint (h region) ->
  is_uint (b region) -> is_uint (d region) ->
  print_field "w" region rounding = printf_u (spec_round (w region) rounding) /\
  print_field "h" region rounding = printf_u (spec_round (h region) rounding) /\
  print_field "b" region rounding = printf_u (spec_round (b region) rounding) /\
  print_field "d" region rounding = printf_u (spec_round (d region) rounding).
Proof.
  intros Hw Hh Hb Hd. unfold print_field, round_and_printu. simpl.
  now rewrite !ROUND_u_spec.
Qed.

(** So is what the signed selectors print when the field is not
    negative. *)
Lemma print_field_signed_spec (region : Region) (rounding : Z) :
  is_int (x region) -> 0 <= x region ->
  is_int (X region) -> 0 <= X region ->
  print_field "x" region rounding = printf_i (spec_round (x region) rounding) /\
  print_field "X" region rounding = printf_i (spec_round (X region) rounding).
Proof.
  intros Hx Hx0 HX HX0. unfold print_field, round_and_printi. simpl.
  now rewrite !ROUND_i_spec_nonneg.
Qed.

Lemma ROUND_zero (value : Z) :
  ROUND_u value 0 = value /\ ROUND_i value 0 = value.
Proof. split; reflexivity. Qed.

End Rounding.

Example render_default_format :
  print_region_attr ("%wx%h+%x+%y" ++ String "010"%char "") example_region
  = Some ("100x50+10+20" ++ String "010"%char "", Returned 0).
Proof. reflexivity. Qed.

Example render_percent :
  print_region_attr "%%" example_region = Some ("%", Returned 0).
Proof. reflexivity. Qed.

Example render_round_width :
  print_region_attr "%[10]w" region_47 = Some ("40", Returned 0).
Proof. reflexivity. Qed.

Example render_unrounded_width :
  print_region_attr "%w" region_47 = Some ("47", Returned 0).
Proof. reflexivity. Qed.

(** C3.  The macro [ROUND] on a signed field divides the value's unsigned
    conversion: rendering ["%[10]x"] against a region with [x = -47]
    prints [-56], while [(v / r) * r] under truncating signed division is
    [-40].  For unsigned fields, and for signed fields that are not
    negative, the macro agrees with the specification ([ROUND_u_spec],
    [ROUND_i_spec_nonneg]), and ["%[10]w"] against [w = 47] prints [40]. *)
Theorem round_signed_negative_diverges :
  print_region_attr "%[10]x" region_47 = Some ("-56", Returned 0) /\
  printf_i (spec_round (x region_47) 10) = "-40" /\
  print_region_attr "%[10]w" region_47 = Some ("40", Returned 0).
Proof. repeat split; reflexivity. Qed.

(** ** The renderer against its specification *)

Section RendererFacts.

Variable region : Region.

Lemma print_region_attr_from (fmt : string) :
  print_region_attr fmt region = print_from fmt region "".
Proof. reflexivity. Qed.

(** After a prefix that renders to its end, the run continues at the
    text that follows it. *)
Lemma print_region_attr_app (pre out suf : string) :
  nul_free pre = true ->
  print_region_attr pre region = Some (out, Returned 0) ->
  print_region_attr (pre ++ suf) region = print_from suf region out.
Proof.
  intros Hnf Hpre. rewrite print_region_attr_from in *.
  now apply print_from_app.
Qed.

Lemma print_field_unknown (c : ascii) (rounding : Z) :
  ~ In c field_selectors -> print_field c region rounding = "".
Proof.
  intros Hc. unfold print_field.
  repeat match goal with
  | |- context [(c =? ?k)%char] =>
      destruct (Ascii.eqb_spec c k) as [->|_];
        [exfalso; apply Hc; simpl; tauto|]
  end.
  reflexivity.
Qed.

Lemma field_selector_not_bracket (f : ascii) :
  In f field_selectors -> f <> "["%char.
Proof.
  simpl. intros H ->.
  repeat (destruct H as [H|H]; [discriminate H|]). exact H.
Qed.

End RendererFacts.

(** C4 (as amended).  Output is written while the format is scanned.
    Rendering always ends; when it ends in a template syntax error,
    standard output holds exactly the complete rendering of the text
    before the directive whose rounding clause does not parse, and
    nothing of what follows it.  Rendering ["%[5w"] writes nothing. *)
Theorem render_error_keeps_earlier_output :
  forall (fmt : string) (region : Region),
    (exists res, print_region_attr fmt region = Some res) /\
    (forall out e,
        print_region_attr fmt region = Some (out, Exited e) ->
        exists pre rest,
          fmt = pre ++ "%[" ++ rest /\
          print_region_attr pre region = Some (out, Returned 0) /\
          read_uint_until ("[" ++ rest) "]" = Die e) /\
    print_region_attr "%[5w" region = Some ("", Exited (UnexpectedCharacter "w")).
Proof.
  intros fmt region. split; [|split].
  - apply print_from_total.
  - intros out e Hrun. now apply print_from_exited in Hrun.
  - reflexivity.
Qed.

Lemma render_error_keeps_earlier_output_witness :
  print_region_attr "ab%[5w" example_region
  = Some ("ab", Exited (UnexpectedCharacter "w")) /\
  exists pre rest,
    "ab%[5w" = pre ++ "%[" ++ rest /\
    print_region_attr pre example_region = Some ("ab", Returned 0) /\
    read_uint_until ("[" ++ rest) "]" = Die (UnexpectedCharacter "w").
Proof.
  split; [reflexivity|].
  apply (proj1 (proj2 (render_error_keeps_earlier_output "ab%[5w" example_region))).
  reflexivity.
Defined.

(** C4 (as stated) fails: rendering ["ab%[5w"] has written ["ab"] on
    standard output when the syntax error ends the run. *)
Lemma render_error_after_output :
  print_region_attr "ab%[5w" example_region
  = Some ("ab", Exited (UnexpectedCharacter "w")) /\
  "ab" <> "".
Proof. split; [reflexivity|discriminate]. Qed.

(** C6 (as amended).  After a prefix that renders to its end, a rounding
    clause with only digits up to the end of the format string ends the
    run with "No matching ] found"; a clause whose first character that
    is not a digit is not the closing bracket ends it with "Unexpected
    character c" for that character, whether a bracket follows later or
    not.  In both cases standard output holds what the prefix rendered
    and nothing more. *)
Theorem malformed_clause_is_fatal :
  forall (region : Region) (pre out ds : string),
    nul_free pre = true ->
    print_region_attr pre region = Some (out, Returned 0) ->
    digits ds = true ->
    print_region_attr (pre ++ "%[" ++ ds) region
    = Some (out, Exited (NoMatching "]")) /\
    (forall c rest,
        is_digit c = false -> c <> "]"%char -> c <> NUL ->
        print_region_attr (pre ++ "%[" ++ ds ++ String c rest) region
        = Some (out, Exited (UnexpectedCharacter c))).
Proof.
  intros region pre out ds Hnf Hpre Hds. split.
  - rewrite (print_region_attr_app region pre out) by assumption.
    apply print_from_clause_die. now apply read_uint_until_unterminated.
  - intros c rest Hc Hstop Hnul.
    rewrite (print_region_attr_app region pre out) by assumption.
    apply print_from_clause_die. now apply read_uint_until_unexpected.
Qed.

Lemma malformed_clause_is_fatal_witness :
  nul_free "w=" = true /\
  print_region_attr "w=" example_region = Some ("w=", Returned 0) /\
  digits "12" = true /\
  print_region_attr "w=%[12" example_region
  = Some ("w=", Exited (NoMatching "]")) /\
  print_region_attr "w=%[12a]w" example_region
  = Some ("w=", Exited (UnexpectedCharacter "a")).
Proof.
  pose proof (malformed_clause_is_fatal example_region "w=" "w=" "12"
                eq_refl eq_refl eq_refl) as [Hend Hbad].
  split; [reflexivity|]. split; [reflexivity|]. split; [reflexivity|].
  split; [exact Hend|].
  apply (Hbad "a"%char "]w"); [reflexivity|discriminate|discriminate].
Defined.

(** C6 (as stated) fails: the clause of ["%[5w"] reaches the end of the
    format string without a closing bracket, and the run ends with the
    invalid-digit error, not with the unterminated-clause error. *)
Lemma unterminated_clause_unexpected_character :
  has_char "]" "5w" = false /\
  print_region_attr "%[5w" example_region
  = Some ("", Exited (UnexpectedCharacter "w")) /\
  UnexpectedCharacter "w" <> NoMatching "]".
Proof. split; [reflexivity|]. split; [reflexivity|discriminate]. Qed.

(** C7.  A directive whose selector character has no case in the switch
    prints nothing and is no error: after a prefix that renders to its
    end, the percent sign, the rounding clause if there is one, and the
    selector are consumed, and the run continues at the text after them,
    exactly as if the directive were not in the format string. *)
Theorem unknown_selector_prints_nothing :
  forall (region : Region) (pre out rest : string) (c : ascii),
    ~ In c field_selectors ->
    nul_free pre = true ->
    print_region_attr pre region = Some (out, Returned 0) ->
    (forall rounding, print_field c region rounding = "") /\
    print_region_attr (pre ++ rest) region = print_from rest region out /\
    (c <> "["%char ->
     print_region_attr (pre ++ String "%" (String c rest)) region
     = print_from rest region out) /\
    (forall ds,
        digits ds = true ->
        print_region_attr (pre ++ "%[" ++ ds ++ String "]" (String c rest)) region
        = print_from rest region out).
Proof.
  intros region pre out rest c Hc Hnf Hpre. repeat split.
  - intros rounding. now apply print_field_unknown.
  - now apply print_region_attr_app.
  - intros Hbr. rewrite (print_region_attr_app region pre out) by assumption.
    rewrite print_from_directive by assumption.
    now rewrite print_field_unknown, append_empty_r.
  - intros ds Hds. rewrite (print_region_attr_app region pre out) by assumption.
    rewrite print_from_clause_directive by assumption.
    now rewrite print_field_unknown, append_empty_r.
Qed.

Lemma unknown_selector_prints_nothing_witness :
  ~ In "q"%char field_selectors /\
  nul_free "a" = true /\
  print_region_attr "a" example_region = Some ("a", Returned 0) /\
  print_region_attr "a%qz" example_region = Some ("az", Returned 0) /\
  print_region_attr "a%[12]qz" example_region = Some ("az", Returned 0).
Proof.
  assert (Hq : ~ In "q"%char field_selectors).
  { simpl. intros H. repeat (destruct H as [H|H]; [discriminate H|]). exact H. }
  pose proof (unknown_selector_prints_nothing example_region "a" "a" "z" "q"
                Hq eq_refl eq_refl) as (_ & _ & Hplain & Hclause).
  split; [exact Hq|]. split; [reflexivity|]. split; [reflexivity|]. split.
  - change ("a%qz") with ("a" ++ String "%" (String "q" "z")).
    rewrite Hplain by discriminate. reflexivity.
  - change ("a%[12]qz") with ("a" ++ "%[" ++ "12" ++ String "]" (String "q" "z")).
    rewrite (Hclause "12" eq_refl). reflexivity.
Defined.

(** C9.  When the text before it renders to its end, a percent sign that
    is the last character of the format string, and likewise a percent
    sign with a complete rounding clause and nothing after it, makes the
    scanner step over the terminating NUL and read beyond the end of the
    string: the run ends in the out-of-range branch. *)
Theorem trailing_percent_reads_past_end :
  forall (region : Region) (pre out : string),
    nul_free pre = true ->
    print_region_attr pre region = Some (out, Returned 0) ->
    print_region_attr (pre ++ "%") region = Some (out, ReadPastEnd) /\
    (forall ds,
        digits ds = true ->
        print_region_attr (pre ++ "%[" ++ ds ++ "]") region
        = Some (out, ReadPastEnd)).
Proof.
  intros region pre out Hnf Hpre. split.
  - rewrite (print_region_attr_app region pre out) by assumption.
    apply print_from_percent_end.
  - intros ds Hds.
    rewrite (print_region_attr_app region pre out) by assumption.
    now apply print_from_clause_end.
Qed.

Lemma trailing_percent_reads_past_end_witness :
  nul_free "%w%%" = true /\
  print_region_attr "%w%%" example_region = Some ("100%", Returned 0) /\
  print_region_attr "%w%%%" example_region = Some ("100%", ReadPastEnd) /\
  print_region_attr "%w%%%[5]" example_region = Some ("100%", ReadPastEnd).
Proof.
  pose proof (trailing_percent_reads_past_end example_region "%w%%" "100%"
                eq_refl eq_refl) as [Hpct Hclause].
  split; [reflexivity|]. split; [reflexivity|].
  split; [exact Hpct|exact (Hclause "5" eq_refl)].
Defined.

(** C10.  An empty rounding clause is accepted: ["[]"] parses to the
    rounding 0, and a format string that starts with ["%[]"] and a field
    selector renders exactly as the one that starts with ["%"] and that
    selector. *)
Theorem empty_clause_is_no_rounding :
  forall (region : Region) (f : ascii) (rest : string),
    In f field_selectors ->
    read_uint_until ("[]" ++ String f rest) "]" = Ok (0, "]" ++ String f rest) /\
    print_region_attr ("%[]" ++ String f rest) region
    = print_region_attr ("%" ++ String f rest) region.
Proof.
  intros region f rest Hf. split; [reflexivity|].
  rewrite !print_region_attr_from.
  change ("%[]" ++ String f rest) with ("%[" ++ "" ++ String "]" (String f rest)).
  rewrite print_from_clause_directive by reflexivity.
  change ("%" ++ String f rest) with (String "%" (String f rest)).
  rewrite print_from_directive by now apply field_selector_not_bracket.
  reflexivity.
Qed.

Lemma empty_clause_is_no_rounding_witness :
  In "w"%char field_selectors /\
  print_region_attr "%[]w+%x" example_region = Some ("100+10", Returned 0) /\
  print_region_attr "%w+%x" example_region = Some ("100+10", Returned 0).
Proof.
  assert (Hw : In "w"%char field_selectors) by (simpl; tauto).
  pose proof (empty_clause_is_no_rounding example_region "w" "+%x" Hw) as [_ H].
  split; [exact Hw|]. split; [|reflexivity].
  change ("%[]w+%x") with ("%[]" ++ String "w" "+%x"). rewrite H. reflexivity.
Defined.

(** ** The selection loop *)

Local Close Scope string_scope.
Local Open Scope list_scope.

Section SelectionFacts.

Lemma wrap_uint_wrap_int (z : Z) : wrap_uint (wrap_int z) = wrap_uint z.
Proof.
  unfold wrap_uint, wrap_int.
  rewrite Zminus_mod_idemp_l. f_equal. lia.
Qed.

(** The two branches of the motion handler compute the smaller
    coordinate and the distance. *)
Lemma motion_normalizes (start cur : Z) :
  is_int start -> is_int cur ->
  (if cur >? start
   then (start, wrap_uint (wrap_int (cur - start)))
   else (cur, wrap_uint (wrap_int (start - cur))))
  = (Z.min start cur, Z.abs (cur - start)).
Proof.
  unfold is_int. intros Hs Hc. rewrite !wrap_uint_wrap_int.
  destruct (cur >? start) eqn:E.
  - apply Z.gtb_lt in E.
    rewrite wrap_uint_small by (unfold is_uint; lia). f_equal; lia.
  - rewrite Z.gtb_ltb in E. apply Z.ltb_ge in E.
    rewrite wrap_uint_small by (unfold is_uint; lia). f_equal; lia.
Qed.

Lemma is_int16_is_int (z : Z) : is_int16 z -> is_int z.
Proof. unfold is_int16, is_int. lia. Qed.

Lemma draws_app (t1 t2 : list XRequest) :
  draws (t1 ++ t2) = draws t1 ++ draws t2.
Proof.
  induction t1 as [|r t1 IH]; [reflexivity|].
  destruct r; simpl; now rewrite ?IH.
Qed.

(** The loop returns as soon as a release is delivered. *)
Lemma event_loop_returns (evs : list XEvent) :
  existsb is_release evs = true ->
  forall l trace, exists l' rest trace',
    event_loop evs l trace = Some (l', rest, trace').
Proof.
  induction evs as [|ev evs IH]; simpl; [discriminate|].
  intros Hrel l trace.
  destruct (select_step ev l) as [l1 reqs] eqn:Estep.
  destruct (done l1) eqn:Edone; [eauto|].
  apply IH. destruct ev; simpl in Hrel; try assumption.
  simpl in Estep. injection Estep as <- _. discriminate Edone.
Qed.

(** A property of the loop variables that every step keeps holds when
    the loop returns. *)
Lemma event_loop_invariant (P : locals -> Prop) (evs : list XEvent) :
  (forall ev l, In ev evs -> P l -> P (fst (select_step ev l))) ->
  forall l trace l' rest trace',
    P l ->
    event_loop evs l trace = Some (l', rest, trace') ->
    P l'.
Proof.
  induction evs as [|ev evs IH]; simpl; intros Hstep l trace l' rest trace' Hl;
    [discriminate|].
  pose proof (Hstep ev l (or_introl eq_refl) Hl) as Hl1.
  destruct (select_step ev l) as [l1 reqs]. simpl in Hl1.
  destruct (done l1).
  - intros E; injection E as <- _ _. exact Hl1.
  - apply IH; [|exact Hl1]. intros ev' l0 Hin. apply Hstep. now right.
Qed.

Lemma select_step_protocol (ev : XEvent) (l : locals) :
  event_in_protocol_range ev -> protocol_locals l ->
  protocol_locals (fst (select_step ev l)).
Proof.
  unfold protocol_locals.
  intros Hev (Hx & Hy & Hsx & Hsy & Hw & Hh).
  destruct ev as [ex ey|ex ey|ex ey|]; simpl in *.
  - unfold is_int16, is_card16 in *. repeat split; lia.
  - destruct Hev as [Hex Hey]. destruct (btn_pressed l); simpl; [|tauto].
    rewrite (motion_normalizes (start_x l) ex), (motion_normalizes (start_y l) ey)
      by now apply is_int16_is_int.
    simpl. unfold is_int16, is_card16 in *. repeat split; lia.
  - tauto.
  - tauto.
Qed.

(** Every pass through the loop draws an even number of rectangles. *)
Lemma select_step_draws_even (ev : XEvent) (l : locals) :
  Nat.even (List.length (draws (snd (select_step ev l)))) = true.
Proof.
  destruct ev as [ex ey|ex ey|ex ey|]; simpl; try reflexivity.
  destruct (btn_pressed l); [|reflexivity].
  destruct (ex >? start_x l), (ey >? start_y l); reflexivity.
Qed.

Lemma event_loop_draws_even (evs : list XEvent) :
  forall l trace l' rest trace',
    event_loop evs l trace = Some (l', rest, trace') ->
    Nat.even (List.length (draws trace')) = Nat.even (List.length (draws trace)).
Proof.
  induction evs as [|ev evs IH]; simpl; intros l trace l' rest trace';
    [discriminate|].
  pose proof (select_step_draws_even ev l) as Heven.
  destruct (select_step ev l) as [l1 reqs]. simpl in Heven.
  assert (Happ : Nat.even (List.length (draws (trace ++ reqs)))
                 = Nat.even (List.length (draws trace))).
  { rewrite draws_app, length_app, Nat.even_add, Heven.
    now destruct (Nat.even (List.length (draws trace))). }
  destruct (done l1).
  - intros E; injection E as _ _ <-. exact Happ.
  - intros E. apply IH in E. now rewrite E.
Qed.

(** A call that got the grab and returned has drawn an odd number of
    rectangles: not every rectangle can have been drawn twice. *)
Lemma select_region_draws_odd (server : XServer) (region sr_uninit : Region)
      (sel : selection) :
  grab_status server = GrabSuccess ->
  select_region server region sr_uninit = Some sel ->
  Nat.odd (List.length (draws (requests sel))) = true.
Proof.
  unfold select_region. intros ->. simpl.
  destruct (event_loop _ _ _) as [[[l rest] trace]|] eqn:Eloop; [|discriminate].
  apply event_loop_draws_even in Eloop. simpl in Eloop.
  assert (Hodd : forall t,
             Nat.odd (List.length (draws (trace
               ++ XDrawRectangle (cur_x l) (cur_y l) (width l) (height l) :: t)))
             = Nat.odd (S (List.length (draws t)))).
  { intros t. rewrite draws_app, length_app. simpl draws. simpl List.length.
    rewrite Nat.odd_add.
    replace (Nat.odd (List.length (draws trace))) with false
      by (unfold Nat.odd; now rewrite Eloop).
    reflexivity. }
  destruct (geometry server); intros E; injection E as <-; simpl;
    rewrite Hodd; reflexivity.
Qed.

End SelectionFacts.

(** ** The selector against its specification *)

Lemma sub_chain (a b c : Z) :
  wrap_int (wrap_uint (wrap_uint (a - wrap_uint b) - c)) = wrap_int (a - b - c).
Proof.
  rewrite wrap_int_wrap_uint. unfold wrap_int, wrap_uint. f_equal.
  replace ((a - b mod 2 ^ 32) mod 2 ^ 32 - c + 2 ^ 31)
    with ((a - b mod 2 ^ 32) mod 2 ^ 32 + (2 ^ 31 - c)) by lia.
  rewrite Zplus_mod_idemp_l.
  replace (a - b mod 2 ^ 32 + (2 ^ 31 - c))
    with (a + (2 ^ 31 - c) - b mod 2 ^ 32) by lia.
  rewrite Zminus_mod_idemp_r. f_equal. lia.
Qed.

(** C1.  Whenever the grab succeeds, a release is among the events and
    the root geometry is reported, [select_region] returns with success a
    region whose [X] and [Y] are the values of [rr.w - x - w] and of
    [rr.h - y - h] as an [int], computed from the region's own [x], [y],
    [w], [h] and the root's size; with coordinates and sizes in the ranges
    of the X11 protocol these are the exact differences. *)
Theorem select_region_derived_offsets :
  forall (server : XServer) (region sr_uninit rr : Region),
    grab_status server = GrabSuccess ->
    geometry server = Some rr ->
    existsb is_release (events server) = true ->
    exists sel,
      select_region server region sr_uninit = Some sel /\
      status sel = EXIT_SUCCESS /\
      X (region_out sel)
      = wrap_int (w rr - x (region_out sel) - w (region_out sel)) /\
      Y (region_out sel)
      = wrap_int (h rr - y (region_out sel) - h (region_out sel)) /\
      (Forall event_in_protocol_range (events server) ->
       is_card16 (w rr) -> is_card16 (h rr) ->
       X (region_out sel) = w rr - x (region_out sel) - w (region_out sel) /\
       Y (region_out sel) = h rr - y (region_out sel) - h (region_out sel)).
Proof.
  intros server region sr_uninit rr Hgrab Hgeo Hrel.
  unfold select_region. rewrite Hgrab, Hgeo. simpl negb. cbv iota.
  destruct (event_loop_returns (events server) Hrel initial_locals
              ([XCreateFontCursor XC_tcross; XGrabPointer] ++ [XCreateGC]))
    as (l & rest & trace & Eloop).
  rewrite Eloop. eexists. split; [reflexivity|]. simpl.
  rewrite !sub_chain.
  split; [reflexivity|]. split; [reflexivity|]. split; [reflexivity|].
  intros Hevs Hw Hh.
  assert (Hl : protocol_locals l).
  { eapply (event_loop_invariant protocol_locals); [| |exact Eloop].
    - intros ev l0 Hin. apply select_step_protocol.
      rewrite Forall_forall in Hevs. now apply Hevs.
    - unfold protocol_locals, initial_locals, is_int16, is_card16. simpl. lia. }
  unfold protocol_locals, is_int16, is_card16 in *.
  split; apply wrap_int_small; unfold is_int; lia.
Qed.

Lemma select_region_derived_offsets_witness :
  grab_status drag_server = GrabSuccess /\
  geometry drag_server = Some root_1920x1080 /\
  existsb is_release (events drag_server) = true /\
  exists sel,
    select_region drag_server zero_region zero_region = Some sel /\
    region_out sel = mkRegion 0 100 50 1620 880 200 150 0 24 /\
    X (region_out sel) = 1920 - x (region_out sel) - w (region_out sel) /\
    Y (region_out sel) = 1080 - y (region_out sel) - h (region_out sel).
Proof.
  split; [reflexivity|]. split; [reflexivity|]. split; [reflexivity|].
  destruct (select_region_derived_offsets drag_server zero_region zero_region
              root_1920x1080 eq_refl eq_refl eq_refl)
    as (sel & Hsel & _ & _ & _ & Hexact).
  exists sel. split; [exact Hsel|]. split.
  - vm_compute in Hsel. injection Hsel as <-. reflexivity.
  - apply Hexact.
    + repeat constructor; unfold is_int16; simpl; lia.
    + unfold is_card16; simpl; lia.
    + unfold is_card16; simpl; lia.
Defined.

(** C2.  A motion event handled while the button is held leaves the
    tracked rectangle with its corner at the component-wise minimum of the
    anchor and the pointer position, and with the distances between them
    as width and height, which are not negative; the anchor is unchanged.
    A drag from one point to another and the drag back between the two
    points track the same rectangle. *)
Theorem motion_tracks_normalized_rectangle :
  forall (l : locals) (ex ey : Z),
    btn_pressed l = true ->
    is_int (start_x l) -> is_int (start_y l) -> is_int ex -> is_int ey ->
    tracked (fst (select_step (MotionNotify ex ey) l))
    = (Z.min (start_x l) ex, Z.min (start_y l) ey,
       Z.abs (ex - start_x l), Z.abs (ey - start_y l)) /\
    0 <= width (fst (select_step (MotionNotify ex ey) l)) /\
    0 <= height (fst (select_step (MotionNotify ex ey) l)) /\
    start_x (fst (select_step (MotionNotify ex ey) l)) = start_x l /\
    start_y (fst (select_step (MotionNotify ex ey) l)) = start_y l /\
    tracked (drag l (start_x l) (start_y l) ex ey)
    = tracked (drag l ex ey (start_x l) (start_y l)).
Proof.
  intros l ex ey Hbtn Hsx Hsy Hex Hey.
  unfold drag, tracked. simpl. rewrite Hbtn.
  rewrite !(motion_normalizes (start_x l) ex), !(motion_normalizes (start_y l) ey),
    (motion_normalizes ex (start_x l)), (motion_normalizes ey (start_y l))
    by assumption.
  simpl. repeat split; try apply Z.abs_nonneg.
  f_equal; [f_equal; [f_equal|]|]; lia.
Qed.

Lemma motion_tracks_normalized_rectangle_witness :
  tracked (fst (select_step (MotionNotify 100 50)
                  (mkLocals false true 250 120 50 80 300 200)))
  = (100, 50, 200, 150) /\
  tracked (drag (mkLocals false true 250 120 50 80 300 200) 300 200 100 50)
  = tracked (drag (mkLocals false true 250 120 50 80 300 200) 100 50 300 200).
Proof.
  pose proof (motion_tracks_normalized_rectangle
                (mkLocals false true 250 120 50 80 300 200) 100 50 eq_refl)
    as H.
  unfold is_int in H. simpl in H.
  destruct H as (Htracked & _ & _ & _ & _ & Hsym); try lia.
  split; [exact Htracked|exact Hsym].
Defined.

(** C5.  The outline of a drag is not erased when the button is pressed
    again: for a press at (10, 10), a motion to (20, 20), a press at
    (50, 50) and the release, the rectangle at (10, 10) of size 10 by 10
    is drawn once and never again, so it stays inverted on the screen. *)
Theorem repress_leaves_outline :
  exists sel,
    select_region repress_server zero_region zero_region = Some sel /\
    status sel = EXIT_SUCCESS /\
    draws (requests sel) = [(10, 10, 0, 0); (10, 10, 10, 10); (50, 50, 0, 0)] /\
    count_draws (10, 10, 10, 10) (requests sel) = 1%nat.
Proof. eexists. split; [reflexivity|]. repeat split. Qed.

(** C8.  When the grab is refused [select_region] returns the failure
    status at once: no event is read, no rectangle is drawn, no graphics
    context is created and the caller's region is left as it was.  The
    cursor made for the grab is left behind: the only requests are its
    creation and the grab itself, and the cursor is not freed on this
    path, as it is on the path through the loop. *)
Theorem failed_grab_returns_at_once :
  forall (server : XServer) (region sr_uninit : Region),
    grab_status server <> GrabSuccess ->
    exists sel,
      select_region server region sr_uninit = Some sel /\
      status sel = EXIT_FAILURE /\
      region_out sel = region /\
      pending sel = events server /\
      draws (requests sel) = [] /\
      requests sel = [XCreateFontCursor XC_tcross; XGrabPointer] /\
      stderr sel = ("xrectsel: failed to grab pointer" ++ String "010"%char "")%string /\
      In (XCreateFontCursor XC_tcross) (requests sel) /\
      ~ In XFreeCursor (requests sel).
Proof.
  intros server region sr_uninit Hgrab. unfold select_region.
  apply Z.eqb_neq in Hgrab. rewrite Hgrab. simpl negb. cbv iota.
  eexists. split; [reflexivity|]. cbn [status region_out pending requests stderr].
  split; [reflexivity|]. split; [reflexivity|]. split; [reflexivity|].
  split; [reflexivity|]. split; [reflexivity|]. split; [reflexivity|].
  split; [now left|].
  intros [H|[H|[]]]; discriminate H.
Qed.

Lemma failed_grab_returns_at_once_witness :
  grab_status busy_server <> GrabSuccess /\
  exists sel,
    select_region busy_server zero_region zero_region = Some sel /\
    status sel = EXIT_FAILURE /\
    region_out sel = zero_region /\
    pending sel = [ButtonPress 10 10; ButtonRelease 10 10] /\
    draws (requests sel) = [] /\
    requests sel = [XCreateFontCursor XC_tcross; XGrabPointer] /\
    ~ In XFreeCursor (requests sel).
Proof.
  assert (Hbusy : grab_status busy_server <> GrabSuccess) by discriminate.
  split; [exact Hbusy|].
  destruct (failed_grab_returns_at_once busy_server zero_region zero_region Hbusy)
    as (sel & Hsel & Hstatus & Hregion & Hpending & Hdraws & Hreq & _ & _ & Hfree).
  exists sel. split; [exact Hsel|]. split; [exact Hstatus|].
  split; [exact Hregion|]. split; [exact Hpending|].
  split; [exact Hdraws|]. split; [exact Hreq|exact Hfree].
Defined.

(** * Further properties of the renderer *)

Local Close Scope list_scope.
Local Open Scope string_scope.

Section RoundingDown.

Lemma ROUND_u_eq (value rounding : Z) :
  is_uint value -> 0 < rounding ->
  ROUND_u value rounding = value - value mod rounding.
Proof.
  intros Hv Hr. rewrite ROUND_u_spec by assumption.
  unfold spec_round, is_uint in *. apply Z.ltb_lt in Hr as Hr'. rewrite Hr'.
  rewrite Z.quot_div_nonneg by lia.
  pose proof (Z.div_mod value rounding). lia.
Qed.

End RoundingDown.

(** X1.  On an unsigned value a positive rounding gives the largest
    multiple of the rounding that does not exceed the value, and rounding
    a second time changes nothing. *)
Theorem ROUND_u_rounds_down :
  forall value rounding : Z,
    is_uint value -> 0 < rounding ->
    ROUND_u value rounding mod rounding = 0 /\
    ROUND_u value rounding <= value < ROUND_u value rounding + rounding /\
    ROUND_u (ROUND_u value rounding) rounding = ROUND_u value rounding.
Proof.
  intros value rounding Hv Hr.
  pose proof (Z.mod_pos_bound value rounding Hr) as Hmod.
  pose proof (Z.mod_le value rounding (proj1 Hv) Hr) as Hle.
  assert (Hzero : (value - value mod rounding) mod rounding = 0).
  { rewrite Zminus_mod_idemp_r, Z.sub_diag. now apply Z.mod_0_l, Z.neq_sym, Z.lt_neq. }
  rewrite (ROUND_u_eq value rounding) by assumption.
  split; [exact Hzero|]. split; [lia|].
  rewrite ROUND_u_eq by (unfold is_uint in *; lia). rewrite Hzero. lia.
Qed.

Lemma ROUND_u_rounds_down_witness :
  is_uint 47 /\ 0 < 10 /\
  ROUND_u 47 10 mod 10 = 0 /\
  ROUND_u 47 10 <= 47 < ROUND_u 47 10 + 10 /\
  ROUND_u (ROUND_u 47 10) 10 = ROUND_u 47 10.
Proof.
  assert (Hv : is_uint 47) by (unfold is_uint; lia).
  assert (Hr : 0 < 10) by lia.
  split; [exact Hv|]. split; [exact Hr|].
  exact (ROUND_u_rounds_down 47 10 Hv Hr).
Defined.

(** X2.  Every field selector prints the specification's rounding of
    its field, in decimal, when the unsigned fields are within
    [unsigned int] and the signed fields are not negative. *)
Theorem print_field_rounds_as_specified :
  forall (region : Region) (rounding : Z),
    is_uint (w region) -> is_uint (h region) ->
    is_uint (b region) -> is_uint (d region) ->
    is_int (x region) -> 0 <= x region ->
    is_int (y region) -> 0 <= y region ->
    is_int (X region) -> 0 <= X region ->
    is_int (Y region) -> 0 <= Y region ->
    print_field "w" region rounding = printf_u (spec_round (w region) rounding) /\
    print_field "h" region rounding = printf_u (spec_round (h region) rounding) /\
    print_field "b" region rounding = printf_u (spec_round (b region) rounding) /\
    print_field "d" region rounding = printf_u (spec_round (d region) rounding) /\
    print_field "x" region rounding = printf_i (spec_round (x region) rounding) /\
    print_field "y" region rounding = printf_i (spec_round (y region) rounding) /\
    print_field "X" region rounding = printf_i (spec_round (X region) rounding) /\
    print_field "Y" region rounding = printf_i (spec_round (Y region) rounding).
Proof.
  intros region rounding Hw Hh Hb Hd Hx Hx0 Hy Hy0 HX HX0 HY HY0.
  unfold print_field, round_and_printu, round_and_printi. simpl.
  rewrite !ROUND_u_spec, !ROUND_i_spec_nonneg by assumption.
  repeat split.
Qed.

Lemma print_field_rounds_as_specified_witness :
  print_field "w" example_region 30 = "90" /\
  print_field "Y" example_region 100 = "1000".
Proof.
  pose proof (print_field_rounds_as_specified example_region 30) as H30.
  pose proof (print_field_rounds_as_specified example_region 100) as H100.
  unfold is_uint, is_int in H30, H100. simpl in H30, H100.
  split.
  - refine (eq_trans (proj1 (H30 _ _ _ _ _ _ _ _ _ _ _ _)) _); try lia.
    reflexivity.
  - refine (eq_trans
              (proj2 (proj2 (proj2 (proj2 (proj2 (proj2 (proj2
                 (H100 _ _ _ _ _ _ _ _ _ _ _ _)))))))) _); try lia.
    reflexivity.
Defined.

(** ** Reading the rounding *)

Section Numerals.

Lemma wrap_uint_step (value num : Z) :
  wrap_uint ((if (wrap_uint value =? 0)%Z then wrap_uint value
              else wrap_uint (wrap_uint value * 10)) + num)
  = wrap_uint (value * 10 + num).
Proof.
  unfold wrap_uint.
  assert (Hmul : (value * 10) mod 2 ^ 32 = (value mod 2 ^ 32 * 10) mod 2 ^ 32)
    by (symmetry; apply Zmult_mod_idemp_l).
  rewrite <- (Zplus_mod_idemp_l (value * 10)), Hmul.
  destruct (value mod 2 ^ 32 =? 0)%Z eqn:E.
  - apply Z.eqb_eq in E. rewrite E. reflexivity.
  - reflexivity.
Qed.

(** The loop's arithmetic is decimal reading modulo 2^32. *)
Lemma uint_of_digits_decimal (s : string) :
  forall value,
    uint_of_digits (wrap_uint value) s = wrap_uint (decimal_value value s).
Proof.
  induction s as [|c s IH]; intros value; simpl; [reflexivity|].
  rewrite wrap_uint_step. apply IH.
Qed.

Lemma digits_string_of_uint (u : Decimal.uint) :
  digits (NilEmpty.string_of_uint u) = true.
Proof. induction u; simpl; auto. Qed.

Lemma decimal_value_of_uint_acc (u : Decimal.uint) :
  forall acc : positive,
    decimal_value (Z.pos acc) (NilEmpty.string_of_uint u)
    = Z.pos (Pos.of_uint_acc u acc).
Proof.
  induction u; intros acc;
    cbn [decimal_value NilEmpty.string_of_uint Pos.of_uint_acc];
    try reflexivity;
    rewrite <- IHu; f_equal;
    match goal with
    | |- context [char_code ?c - char_code ?z] =>
        let k := eval vm_compute in (char_code c - char_code z) in
        change (char_code c - char_code z) with k
    end; lia.
Qed.

Lemma decimal_value_of_uint (u : Decimal.uint) :
  decimal_value 0 (NilEmpty.string_of_uint u) = Z.of_N (Pos.of_uint u).
Proof.
  induction u;
    cbn [decimal_value NilEmpty.string_of_uint Pos.of_uint];
    try reflexivity;
    match goal with
    | |- context [char_code ?c - char_code ?z] =>
        let k := eval vm_compute in (char_code c - char_code z) in
        change (0 * 10 + (char_code c - char_code z)) with k
    end;
    [exact IHu|apply decimal_value_of_uint_acc..].
Qed.

(** What [printf("%u")] writes is a numeral that denotes the value. *)
Lemma printf_u_decimal (value : Z) :
  0 <= value ->
  digits (printf_u value) = true /\ decimal_value 0 (printf_u value) = value.
Proof.
  intros Hv. unfold printf_u, NilZero.string_of_uint.
  pose proof (DecimalN.Unsigned.of_to (Z.to_N value)) as Hof.
  destruct (N.to_uint (Z.to_N value)) eqn:E;
    try (split; [rewrite <- E at 1; rewrite E; apply digits_string_of_uint|];
         rewrite decimal_value_of_uint; unfold N.of_uint in Hof;
         rewrite Hof; apply Z2N.id; exact Hv).
  split; [reflexivity|]. simpl in Hof. simpl. lia.
Qed.

Lemma read_uint_until_digits (ds rest : string) :
  digits ds = true ->
  read_uint_until ("[" ++ ds ++ String "]" rest) "]"
  = Ok (uint_of_digits 0 ds, String "]" rest).
Proof.
  intros Hds. unfold read_uint_until.
  change ("[" ++ ds ++ String "]" rest) with (String "[" (ds ++ String "]" rest)).
  rewrite read_uint_loop_digits by assumption. reflexivity.
Qed.

End Numerals.

(** X3.  A rounding clause of decimal digits is read as the number the
    digits denote, reduced modulo 2^32, and the cursor is left on the
    closing bracket; leading zeros and an overflowing numeral are
    accepted. *)
Theorem read_uint_until_reads_decimal :
  forall ds rest : string,
    digits ds = true ->
    read_uint_until ("[" ++ ds ++ String "]" rest) "]"
    = Ok (decimal_value 0 ds mod 2 ^ 32, String "]" rest).
Proof.
  intros ds rest Hds. rewrite read_uint_until_digits by assumption.
  change 0 with (wrap_uint 0) at 1. now rewrite uint_of_digits_decimal.
Qed.

Lemma read_uint_until_reads_decimal_witness :
  read_uint_until "[0125]w" "]" = Ok (125, "]w") /\
  read_uint_until "[4294967306]w" "]" = Ok (10, "]w").
Proof.
  split.
  - exact (read_uint_until_reads_decimal "0125" "w" eq_refl).
  - exact (read_uint_until_reads_decimal "4294967306" "w" eq_refl).
Defined.

(** X4.  Reading back what [printf("%u")] writes for an [unsigned int]
    gives the value again. *)
Theorem read_uint_until_printf_u :
  forall (value : Z) (rest : string),
    is_uint value ->
    read_uint_until ("[" ++ printf_u value ++ String "]" rest) "]"
    = Ok (value, String "]" rest).
Proof.
  intros value rest Hv. unfold is_uint in Hv.
  destruct (printf_u_decimal value) as [Hds Hval]; [lia|].
  rewrite read_uint_until_digits by assumption.
  change 0 with (wrap_uint 0) at 1.
  rewrite uint_of_digits_decimal, Hval. now rewrite wrap_uint_small.
Qed.

Lemma read_uint_until_printf_u_witness :
  is_uint 4294967295 /\
  read_uint_until ("[" ++ printf_u 4294967295 ++ "]w") "]"
  = Ok (4294967295, "]w").
Proof.
  assert (H : is_uint 4294967295) by (unfold is_uint; lia).
  split; [exact H|]. exact (read_uint_until_printf_u 4294967295 "w" H).
Defined.

(** X5.  Started on a character of the format string, [read_uint_until]
    never reads beyond the terminating NUL; when it returns, the cursor is
    on the stop character and the value fits an [unsigned int]. *)
Theorem read_uint_until_in_bounds :
  forall (c : ascii) (s : string) (stop : ascii),
    read_uint_until (String c s) stop <> OutOfBounds /\
    (forall value s',
        read_uint_until (String c s) stop = Ok (value, s') ->
        deref s' = stop /\ is_uint value).
Proof.
  intros c s stop. unfold read_uint_until.
  assert (H0 : is_uint 0) by (unfold is_uint; lia). revert H0.
  generalize 0 as v. revert c.
  induction s as [|c1 s IH]; intros c v Hv.
  - change (read_uint_loop (String c "") stop v)
      with (if (NUL =? stop)%char then Ok (v, "")
            else if (NUL =? NUL)%char then Die (NoMatching stop)
            else if negb (is_digit NUL) then Die (UnexpectedCharacter NUL)
            else read_uint_loop "" stop
                   (wrap_uint ((if (v =? 0)%Z then v else wrap_uint (v * 10))
                               + (char_code NUL - char_code "0")))).
    destruct (Ascii.eqb_spec NUL stop) as [E|E].
    + split; [congruence|]. intros value s' H. injection H as <- <-. auto.
    + rewrite Ascii.eqb_refl. split; congruence.
  - change (read_uint_loop (String c (String c1 s)) stop v)
      with (if (c1 =? stop)%char then Ok (v, String c1 s)
            else if (c1 =? NUL)%char then Die (NoMatching stop)
            else if negb (is_digit c1) then Die (UnexpectedCharacter c1)
            else read_uint_loop (String c1 s) stop
                   (wrap_uint ((if (v =? 0)%Z then v else wrap_uint (v * 10))
                               + (char_code c1 - char_code "0")))).
    destruct (Ascii.eqb_spec c1 stop) as [E|E].
    + split; [congruence|]. intros value s' H. injection H as <- <-. auto.
    + destruct (c1 =? NUL)%char; [split; congruence|].
      destruct (negb (is_digit c1)); [split; congruence|].
      apply IH. unfold is_uint, wrap_uint. apply Z.mod_pos_bound. lia.
Qed.

Lemma read_uint_until_in_bounds_witness :
  read_uint_until "[12]w" "]" <> OutOfBounds /\
  deref "]w" = "]"%char /\ is_uint 12.
Proof.
  destruct (read_uint_until_in_bounds "[" "12]w" "]") as [Hin Hok].
  split; [exact Hin|]. exact (Hok 12 "]w" eq_refl).
Defined.

(** ** How runs compose *)

Section ScannerFrame.

Variable region : Region.

(** What one pass of the loop writes does not depend on what was
    written before. *)
Lemma print_step_frame (s out : string) :
  print_step s region out
  = (out ++ fst (print_step s region ""), snd (print_step s region "")).
Proof.
  unfold print_step.
  destruct (deref s =? "%")%char.
  - destruct (incr s) as [s1|]; [|now rewrite append_empty_r].
    destruct (deref s1 =? "[")%char; [|reflexivity].
    destruct (read_uint_until s1 "]") as [[rounding s2]| |];
      try now rewrite append_empty_r.
    destruct (incr s2); [reflexivity|now rewrite append_empty_r].
  - reflexivity.
Qed.

Lemma prepend_prepend (out o : string) (res : option (string * termination)) :
  prepend out (prepend o res) = prepend (out ++ o) res.
Proof. destruct res as [[o' t]|]; simpl; [|reflexivity]. now rewrite append_assoc. Qed.

(** A run started with [out] already written ends as the run started
    with nothing written, with [out] in front of its output. *)
Lemma print_from_frame (s : string) :
  forall out, print_from s region out = prepend out (print_from s region "").
Proof.
  remember (String.length s) as n eqn:Hn. revert s Hn.
  induction n as [n IH] using lt_wf_ind. intros s Hn out.
  rewrite (print_from_eq region s out), (print_from_eq region s "").
  destruct (deref s =? NUL)%char; [simpl; now rewrite append_empty_r|].
  rewrite (print_step_frame s out).
  destruct (print_step s region "") as [o [s'| |]] eqn:E; simpl;
    try reflexivity.
  destruct (incr s') as [s''|] eqn:E'; [|reflexivity].
  pose proof (print_step_shorter region _ _ _ _ _ E E') as Hlt.
  rewrite (IH (String.length s'')) by (try reflexivity; lia).
  rewrite (IH (String.length s'') ltac:(lia) s'' eq_refl o).
  now rewrite prepend_prepend.
Qed.

Lemma print_from_literal_text (s : string) :
  forall out,
    literal s = true -> print_from s region out = Some (out ++ s, Returned 0).
Proof.
  induction s as [|c s IH]; intros out Hlit.
  - rewrite print_from_end. now rewrite append_empty_r.
  - simpl in Hlit. apply andb_true_iff in Hlit as [Hc Hlit].
    apply andb_true_iff in Hc as [Hpct Hnul].
    apply negb_true_iff, Ascii.eqb_neq in Hpct, Hnul.
    rewrite print_from_literal by assumption.
    rewrite IH by assumption. now rewrite append_assoc.
Qed.

(** A run that reads beyond the end was scanned to the end of the text
    before a directive that has no selector character. *)
Lemma print_from_read_past_end (s : string) :
  forall out out',
    print_from s region out = Some (out', ReadPastEnd) ->
    exists pre,
      (s = pre ++ "%" \/
       exists ds, digits ds = true /\ s = pre ++ "%[" ++ ds ++ "]") /\
      print_from pre region out = Some (out', Returned 0).
Proof.
  remember (String.length s) as n eqn:Hn. revert s Hn.
  induction n as [n IH] using lt_wf_ind.
  intros [|c p] Hn out out' Hrun.
  - rewrite print_from_end in Hrun. discriminate.
  - simpl in Hn.
    destruct (Ascii.eqb_spec c NUL) as [->|Hc].
    { rewrite print_from_nul in Hrun. discriminate. }
    destruct (Ascii.eqb_spec c "%") as [->|Hpct].
    + destruct p as [|c1 p1].
      { rewrite print_from_percent_end in Hrun. injection Hrun as <-.
        exists "". split; [now left|apply print_from_end]. }
      destruct (Ascii.eqb_spec c1 "[") as [->|Hbr].
      * destruct (clause_split p1) as (ds & rest & Hp1 & Hds & Hrest).
        destruct Hrest as [->|(c2 & r & -> & Hc2)].
        { change (String "%" (String "[" p1)) with ("%[" ++ p1) in Hrun.
          rewrite (print_from_clause_die region p1 out (NoMatching "]")) in Hrun;
            [discriminate|].
          rewrite Hp1, append_empty_r. now apply read_uint_until_unterminated. }
        destruct (Ascii.eqb_spec c2 "]") as [->|Hstop].
        -- subst p1. destruct r as [|c3 r3].
           { change (String "%" (String "[" (ds ++ "]"))) with ("%[" ++ ds ++ "]") in *.
             rewrite print_from_clause_end in Hrun by assumption.
             injection Hrun as <-. exists "". split; [|apply print_from_end].
             right. exists ds. auto. }
           change (String "%" (String "[" (ds ++ String "]" (String c3 r3))))
             with ("%[" ++ ds ++ String "]" (String c3 r3)) in *.
           rewrite print_from_clause_directive in Hrun by assumption.
           apply (IH (String.length r3)) in Hrun; [|simpl in Hn|reflexivity].
           ++ destruct Hrun as (pre & Hshape & Hpre).
              exists ("%[" ++ ds ++ String "]" (String c3 pre)).
              split; [|now rewrite print_from_clause_directive].
              destruct Hshape as [->|(ds' & Hds' & ->)].
              ** left. simpl. now rewrite append_assoc.
              ** right. exists ds'. split; [assumption|].
                 simpl. now rewrite append_assoc.
           ++ rewrite length_append in Hn. simpl in Hn. lia.
        -- change (String "%" (String "[" p1)) with ("%[" ++ p1) in Hrun.
           erewrite print_from_clause_die in Hrun;
             [discriminate|rewrite Hp1; now apply read_uint_until_bad].
      * rewrite print_from_directive in Hrun by assumption.
        apply (IH (String.length p1)) in Hrun; [|simpl in Hn; lia|reflexivity].
        destruct Hrun as (pre & Hshape & Hpre).
        exists (String "%" (String c1 pre)).
        split; [|now rewrite print_from_directive].
        destruct Hshape as [->|(ds' & Hds' & ->)]; [now left|].
        right. exists ds'. auto.
    + rewrite print_from_literal in Hrun by assumption.
      apply (IH (String.length p)) in Hrun; [|lia|reflexivity].
      destruct Hrun as (pre & Hshape & Hpre).
      exists (String c pre).
      split; [|now rewrite print_from_literal].
      destruct Hshape as [->|(ds' & Hds' & ->)]; [now left|].
      right. exists ds'. auto.
Qed.

End ScannerFrame.

(** X6.  Text without a percent sign is copied to standard output
    unchanged, and the run returns. *)
Theorem literal_text_is_copied :
  forall (region : Region) (s : string),
    literal s = true ->
    print_region_attr s region = Some (s, Returned 0).
Proof.
  intros region s Hlit. rewrite print_region_attr_from.
  now rewrite print_from_literal_text.
Qed.

Lemma literal_text_is_copied_witness :
  literal "left=, top=" = true /\
  print_region_attr "left=, top=" example_region
  = Some ("left=, top=", Returned 0).
Proof.
  split; [reflexivity|].
  exact (literal_text_is_copied example_region "left=, top=" eq_refl).
Defined.

(** X7.  The scanner only ever appends to standard output: however a
    run ends, what was written before it is still there, followed by
    exactly what the same run writes when it starts with nothing
    written. *)
Theorem output_is_append_only :
  forall (region : Region) (s out out' : string) (t : termination),
    print_from s region out = Some (out', t) ->
    exists o,
      out' = out ++ o /\ print_from s region "" = Some (o, t).
Proof.
  intros region s out out' t Hrun. rewrite print_from_frame in Hrun.
  destruct (print_from s region "") as [[o t']|]; simpl in Hrun; [|discriminate].
  injection Hrun as <- <-. exists o. auto.
Qed.

Lemma output_is_append_only_witness :
  print_from "%w%[q" example_region "size " =
  Some ("size 100", Exited (UnexpectedCharacter "q")) /\
  exists o,
    "size 100" = "size " ++ o /\
    print_from "%w%[q" example_region ""
    = Some (o, Exited (UnexpectedCharacter "q")).
Proof.
  split; [reflexivity|].
  exact (output_is_append_only example_region "%w%[q" "size " "size 100"
           (Exited (UnexpectedCharacter "q")) eq_refl).
Defined.

(** X8.  Rendering a concatenation: when the first part renders to its
    end, the whole renders to the first part's output followed by the
    second part's output, and ends as the second part ends. *)
Theorem render_concatenation :
  forall (region : Region) (pre suf o1 o2 : string) (t : termination),
    nul_free pre = true ->
    print_region_attr pre region = Some (o1, Returned 0) ->
    print_region_attr suf region = Some (o2, t) ->
    print_region_attr (pre ++ suf) region = Some (o1 ++ o2, t).
Proof.
  intros region pre suf o1 o2 t Hnf Hpre Hsuf.
  rewrite (print_region_attr_app region pre o1) by assumption.
  rewrite print_from_frame. rewrite print_region_attr_from in Hsuf.
  now rewrite Hsuf.
Qed.

Lemma render_concatenation_witness :
  print_region_attr ("%wx%h" ++ "+%x+%[") example_region
  = Some ("100x50" ++ "+10+", Exited (NoMatching "]")).
Proof.
  exact (render_concatenation example_region "%wx%h" "+%x+%[" "100x50" "+10+"
           (Exited (NoMatching "]")) eq_refl eq_refl eq_refl).
Defined.

(** X9.  The scanner reads beyond the end of the format string only when
    the string ends in a directive without a selector character: a final
    percent sign, or a final percent sign with a complete rounding
    clause, after text that renders to its end.  Everything that text
    renders has been written. *)
Theorem read_past_end_needs_dangling_directive :
  forall (region : Region) (fmt out : string),
    print_region_attr fmt region = Some (out, ReadPastEnd) ->
    exists pre,
      (fmt = pre ++ "%" \/
       exists ds, digits ds = true /\ fmt = pre ++ "%[" ++ ds ++ "]") /\
      print_region_attr pre region = Some (out, Returned 0).
Proof.
  intros region fmt out Hrun. rewrite print_region_attr_from in Hrun.
  now apply print_from_read_past_end in Hrun.
Qed.

Lemma read_past_end_needs_dangling_directive_witness :
  print_region_attr "%x,%y%[25]" example_region = Some ("10,20", ReadPastEnd) /\
  exists pre,
    ("%x,%y%[25]" = pre ++ "%" \/
     exists ds, digits ds = true /\ "%x,%y%[25]" = pre ++ "%[" ++ ds ++ "]") /\
    print_region_attr pre example_region = Some ("10,20", Returned 0).
Proof.
  split; [reflexivity|].
  exact (read_past_end_needs_dangling_directive example_region "%x,%y%[25]"
           "10,20" eq_refl).
Defined.

(** * Further properties of the selection *)

Local Close Scope string_scope.
Local Open Scope list_scope.

Section EventLoopFacts.

Lemma select_step_done (ev : XEvent) (l : locals) :
  done (fst (select_step ev l)) = is_release ev || done l.
Proof.
  destruct ev; simpl; try reflexivity.
  destruct (btn_pressed l); simpl; [|reflexivity].
  destruct (_ >? _), (_ >? _); reflexivity.
Qed.

Lemma select_step_release (ex ey : Z) (l : locals) :
  select_step (ButtonRelease ex ey) l = (released l, []).
Proof. reflexivity. Qed.

(** The loop is the sequence of passes over the events before the first
    release, followed by the release. *)
Lemma event_loop_run_steps (evs : list XEvent) :
  forall l trace,
    done l = false ->
    existsb is_release evs = true ->
    event_loop evs l trace
    = Some (released (fst (run_steps (until_release evs) l)),
            after_release evs,
            trace ++ snd (run_steps (until_release evs) l)).
Proof.
  induction evs as [|ev evs IH]; intros l trace Hdone Hrel; [discriminate|].
  simpl in Hrel. simpl event_loop. simpl until_release. simpl after_release.
  pose proof (select_step_done ev l) as Hstep.
  destruct (is_release ev) eqn:Eev.
  - destruct ev; try discriminate. simpl. reflexivity.
  - simpl in Hrel. rewrite Hdone in Hstep. simpl in Hstep.
    simpl run_steps.
    destruct (select_step ev l) as [l1 reqs1]. simpl in Hstep. rewrite Hstep.
    rewrite (IH l1 (trace ++ reqs1) Hstep Hrel).
    destruct (run_steps (until_release evs) l1) as [l2 reqs2]. simpl.
    now rewrite app_assoc.
Qed.

(** Without a release the loop waits for ever. *)
Lemma event_loop_blocks (evs : list XEvent) :
  forall l trace,
    done l = false ->
    existsb is_release evs = false ->
    event_loop evs l trace = None.
Proof.
  induction evs as [|ev evs IH]; intros l trace Hdone Hrel; [reflexivity|].
  simpl in Hrel. apply orb_false_iff in Hrel as [Hev Hrel]. simpl.
  pose proof (select_step_done ev l) as Hstep. rewrite Hev, Hdone in Hstep.
  destruct (select_step ev l) as [l1 reqs1]. simpl in Hstep. rewrite Hstep.
  now apply IH.
Qed.

Lemma run_steps_app (evs1 evs2 : list XEvent) :
  forall l,
    run_steps (evs1 ++ evs2) l
    = (fst (run_steps evs2 (fst (run_steps evs1 l))),
       snd (run_steps evs1 l) ++ snd (run_steps evs2 (fst (run_steps evs1 l)))).
Proof.
  induction evs1 as [|ev evs1 IH]; intros l; simpl.
  - now destruct (run_steps evs2 l).
  - destruct (select_step ev l) as [l1 reqs1]. rewrite IH.
    destruct (run_steps evs1 l1) as [l2 reqs2]. simpl.
    now rewrite app_assoc.
Qed.

Lemma run_steps_requests (evs : list XEvent) :
  forall l, forallb is_draw_or_flush (snd (run_steps evs l)) = true.
Proof.
  induction evs as [|ev evs IH]; intros l; simpl; [reflexivity|].
  assert (Hstep : forallb is_draw_or_flush (snd (select_step ev l)) = true).
  { destruct ev; simpl; try reflexivity.
    destruct (btn_pressed l); simpl; [|reflexivity].
    destruct (_ >? _), (_ >? _); reflexivity. }
  destruct (select_step ev l) as [l1 reqs1]. specialize (IH l1).
  destruct (run_steps evs l1) as [l2 reqs2]. simpl in *.
  rewrite forallb_app. now rewrite Hstep, IH.
Qed.

Lemma until_release_app (pre evs : list XEvent) :
  existsb is_release pre = false ->
  until_release (pre ++ evs) = pre ++ until_release evs.
Proof.
  induction pre as [|ev pre IH]; simpl; [reflexivity|].
  intros H. apply orb_false_iff in H as [Hev Hpre].
  rewrite Hev. now rewrite IH.
Qed.

Lemma after_release_app (pre evs : list XEvent) :
  existsb is_release pre = false ->
  after_release (pre ++ evs) = after_release evs.
Proof.
  induction pre as [|ev pre IH]; simpl; [reflexivity|].
  intros H. apply orb_false_iff in H as [Hev Hpre].
  rewrite Hev. now apply IH.
Qed.

Lemma last_cons {A : Type} (l : list A) :
  forall a d : A, last (a :: l) d = last l a.
Proof.
  induction l as [|a' l IH]; intros a d; [reflexivity|].
  change (last (a :: a' :: l) d) with (last (a' :: l) d).
  now rewrite !IH.
Qed.

(** The passes of one drag: the button is held, no other press comes. *)
Lemma run_steps_drag (tail : list XEvent) :
  forall l,
    btn_pressed l = true ->
    is_int (start_x l) -> is_int (start_y l) ->
    Forall event_is_int tail ->
    existsb is_press tail = false ->
    existsb is_release tail = false ->
    tracked (fst (run_steps tail l))
    = last (map (normalized_rect (start_x l) (start_y l)) (motions tail))
           (tracked l) /\
    draws (snd (run_steps tail l)) ++ [tracked (fst (run_steps tail l))]
    = tracked l ::
      flat_map (fun r => [r; r])
        (map (normalized_rect (start_x l) (start_y l)) (motions tail)).
Proof.
  induction tail as [|ev tail IH]; intros l Hbtn Hsx Hsy Hint Hpress Hrel.
  - simpl. auto.
  - inversion Hint as [|ev' tail' Hev Htail]; subst.
    simpl in Hpress, Hrel.
    apply orb_false_iff in Hpress as [Hp Hpress].
    apply orb_false_iff in Hrel as [Hr Hrel].
    destruct ev as [ex ey|ex ey|ex ey|]; try discriminate.
    + simpl in Hev. destruct Hev as [Hex Hey].
      simpl run_steps. simpl select_step. rewrite Hbtn.
      rewrite (motion_normalizes (start_x l) ex), (motion_normalizes (start_y l) ey)
        by assumption.
      destruct (IH (mkLocals (done l) true (Z.min (start_x l) ex)
                      (Z.min (start_y l) ey) (Z.abs (ex - start_x l))
                      (Z.abs (ey - start_y l)) (start_x l) (start_y l))
                  eq_refl Hsx Hsy Htail Hpress Hrel) as [Htr Hdr].
      cbn [start_x start_y tracked cur_x cur_y width height] in Htr, Hdr.
      destruct (run_steps tail _) as [l2 reqs2]. simpl fst in *. simpl snd in *.
      simpl motions. simpl map. split.
      * rewrite last_cons. exact Htr.
      * simpl draws. simpl app. rewrite Hdr. reflexivity.
    + simpl run_steps. simpl select_step.
      destruct (IH l Hbtn Hsx Hsy Htail Hpress Hrel) as [Htr Hdr].
      destruct (run_steps tail l) as [l2 reqs2]. simpl in *. auto.
Qed.

(** Before the first press nothing is tracked and nothing is drawn. *)
Lemma run_steps_idle (pre : list XEvent) :
  forall l,
    btn_pressed l = false ->
    existsb is_press pre = false ->
    existsb is_release pre = false ->
    run_steps pre l = (l, []).
Proof.
  induction pre as [|ev pre IH]; intros l Hbtn Hpress Hrel; [reflexivity|].
  simpl in Hpress, Hrel.
  apply orb_false_iff in Hpress as [Hp Hpress].
  apply orb_false_iff in Hrel as [Hr Hrel].
  destruct ev; try discriminate; simpl; rewrite ?Hbtn;
    now rewrite (IH l Hbtn Hpress Hrel).
Qed.

Lemma run_steps_done (evs : list XEvent) :
  forall l,
    existsb is_release evs = false ->
    done (fst (run_steps evs l)) = done l.
Proof.
  induction evs as [|ev evs IH]; intros l Hrel; [reflexivity|].
  simpl in Hrel. apply orb_false_iff in Hrel as [Hev Hrel]. simpl.
  pose proof (select_step_done ev l) as Hstep. rewrite Hev in Hstep.
  destruct (select_step ev l) as [l1 reqs1]. specialize (IH l1 Hrel).
  destruct (run_steps evs l1) as [l2 reqs2]. simpl in *. congruence.
Qed.

(** What a call that got the grab returns, in terms of the passes over
    the events before the first release. *)
Lemma select_region_run_steps (server : XServer) (region sr_uninit : Region) :
  grab_status server = GrabSuccess ->
  existsb is_release (events server) = true ->
  exists l mid,
    run_steps (until_release (events server)) initial_locals = (l, mid) /\
    select_region server region sr_uninit
    = Some
        (match geometry server with
         | None =>
             mkSelection EXIT_FAILURE region
               (setup_requests ++ mid ++ teardown_requests (tracked l))
               (after_release (events server))
               ("xrectsel: failed to get root window geometry"
                ++ String "010"%char "")%string
         | Some rr =>
             mkSelection EXIT_SUCCESS
               (mkRegion (root sr_uninit) (cur_x l) (cur_y l)
                  (wrap_int (w rr - cur_x l - width l))
                  (wrap_int (h rr - cur_y l - height l))
                  (width l) (height l) (b rr) (d rr))
               (setup_requests ++ mid ++ teardown_requests (tracked l))
               (after_release (events server)) ""%string
         end).
Proof.
  intros Hgrab Hrel. unfold select_region. rewrite Hgrab. simpl negb. cbv iota.
  rewrite (event_loop_run_steps (events server) initial_locals _ eq_refl Hrel).
  destruct (run_steps (until_release (events server)) initial_locals)
    as [l mid] eqn:Erun.
  exists l, mid. split; [reflexivity|].
  unfold setup_requests, teardown_requests, tracked.
  destruct (geometry server) as [rr|]; cbn -[wrap_int wrap_uint Z.sub];
    rewrite ?sub_chain, <- ?app_assoc; reflexivity.
Qed.

End EventLoopFacts.

Section DragFacts.

Lemma until_release_at (evs post : list XEvent) (rx ry : Z) :
  existsb is_release evs = false ->
  existsb is_release (evs ++ ButtonRelease rx ry :: post) = true /\
  until_release (evs ++ ButtonRelease rx ry :: post) = evs /\
  after_release (evs ++ ButtonRelease rx ry :: post) = post.
Proof.
  intros Hevs. split; [|split].
  - rewrite existsb_app. simpl. now rewrite orb_true_r.
  - rewrite until_release_app by assumption. simpl. apply app_nil_r.
  - rewrite after_release_app by assumption. reflexivity.
Qed.

(** A press and the events of the drag that follows it. *)
Lemma run_steps_press_drag (tail : list XEvent) (ax ay : Z) (l : locals) :
  is_int ax -> is_int ay ->
  Forall event_is_int tail ->
  existsb is_press tail = false ->
  existsb is_release tail = false ->
  tracked (fst (run_steps (ButtonPress ax ay :: tail) l))
  = last (map (normalized_rect ax ay) (motions tail)) (ax, ay, 0, 0) /\
  draws (snd (run_steps (ButtonPress ax ay :: tail) l))
    ++ [tracked (fst (run_steps (ButtonPress ax ay :: tail) l))]
  = (ax, ay, 0, 0) ::
    flat_map (fun r => [r; r]) (map (normalized_rect ax ay) (motions tail)).
Proof.
  intros Hax Hay Hint Hpress Hrel.
  destruct (run_steps_drag tail (mkLocals (done l) true ax ay 0 0 ax ay)
              eq_refl Hax Hay Hint Hpress Hrel) as [Htr Hdr].
  cbn [start_x start_y tracked cur_x cur_y width height] in Htr, Hdr.
  simpl run_steps.
  destruct (run_steps tail _) as [l2 reqs2]. simpl in *. auto.
Qed.

Lemma draws_requests (mid : list XRequest) (r : Z * Z * Z * Z) :
  draws (setup_requests ++ mid ++ teardown_requests r) = draws mid ++ [r].
Proof.
  destruct r as [[[rx ry] rw] rh].
  rewrite !draws_app. reflexivity.
Qed.

Lemma select_region_blocks (server : XServer) (region sr_uninit : Region) :
  grab_status server = GrabSuccess ->
  existsb is_release (events server) = false ->
  select_region server region sr_uninit = None.
Proof.
  intros Hgrab Hrel. unfold select_region. rewrite Hgrab. simpl negb. cbv iota.
  now rewrite event_loop_blocks.
Qed.

Lemma select_region_returned (server : XServer) (region sr_uninit : Region)
      (sel : selection) :
  grab_status server = GrabSuccess ->
  select_region server region sr_uninit = Some sel ->
  existsb is_release (events server) = true.
Proof.
  intros Hgrab Hsel.
  destruct (existsb is_release (events server)) eqn:Hrel; [reflexivity|].
  rewrite select_region_blocks in Hsel by assumption. discriminate.
Qed.

End DragFacts.

(** X10.  A call of [select_region] fails to return exactly when the
    grab is granted and no button release is ever delivered: the release
    is the only way out of the loop. *)
Theorem select_region_waits_for_release :
  forall (server : XServer) (region sr_uninit : Region),
    select_region server region sr_uninit = None <->
    grab_status server = GrabSuccess /\
    existsb is_release (events server) = false.
Proof.
  intros server region sr_uninit. unfold select_region.
  destruct (Z.eqb_spec (grab_status server) GrabSuccess) as [Hgrab|Hgrab];
    simpl negb; cbv iota.
  - destruct (existsb is_release (events server)) eqn:Hrel.
    + destruct (event_loop_returns (events server) Hrel initial_locals
                  ([XCreateFontCursor XC_tcross; XGrabPointer] ++ [XCreateGC]))
        as (l & rest & trace & ->).
      destruct (geometry server); split; try discriminate;
        intros [_ H]; discriminate H.
    + rewrite event_loop_blocks by (assumption || reflexivity). tauto.
  - split; [discriminate|]. intros [H _]. contradiction.
Qed.

Lemma select_region_waits_for_release_witness :
  select_region
    (mkXServer GrabSuccess [ButtonPress 1 1; MotionNotify 5 5; OtherEvent]
       (Some root_1920x1080))
    zero_region zero_region = None.
Proof.
  apply (proj2 (select_region_waits_for_release _ zero_region zero_region)).
  split; reflexivity.
Defined.

(** X11.  A call that got the grab and returned has read the events up
    to the first release and no further: the events delivered after that
    release are still pending. *)
Theorem select_region_stops_at_first_release :
  forall (server : XServer) (region sr_uninit : Region) (sel : selection),
    grab_status server = GrabSuccess ->
    select_region server region sr_uninit = Some sel ->
    existsb is_release (events server) = true /\
    pending sel = after_release (events server).
Proof.
  intros server region sr_uninit sel Hgrab Hsel.
  pose proof (select_region_returned server region sr_uninit sel Hgrab Hsel)
    as Hrel.
  split; [exact Hrel|].
  destruct (select_region_run_steps server region sr_uninit Hgrab Hrel)
    as (l & mid & _ & Heq).
  rewrite Heq in Hsel. injection Hsel as <-.
  destruct (geometry server); reflexivity.
Qed.

Lemma select_region_stops_at_first_release_witness :
  exists sel,
    select_region
      (mkXServer GrabSuccess
         [ButtonPress 1 1; ButtonRelease 1 1; ButtonPress 7 7; ButtonRelease 9 9]
         (Some root_1920x1080))
      zero_region zero_region = Some sel /\
    pending sel = [ButtonPress 7 7; ButtonRelease 9 9].
Proof.
  eexists. split; [reflexivity|].
  exact (proj2 (select_region_stops_at_first_release
                  (mkXServer GrabSuccess
                     [ButtonPress 1 1; ButtonRelease 1 1; ButtonPress 7 7;
                      ButtonRelease 9 9]
                     (Some root_1920x1080))
                  zero_region zero_region _ eq_refl eq_refl)).
Defined.

(** X12.  What [select_region] returns, draws and reports depends only
    on the events before the first release: the position of the release
    and every later event play no part. *)
Theorem select_region_ignores_release_position :
  forall (evs post1 post2 : list XEvent) (rx1 ry1 rx2 ry2 grab : Z)
         (geo : option Region) (region sr_uninit : Region),
    existsb is_release evs = false ->
    match
      select_region (mkXServer grab (evs ++ ButtonRelease rx1 ry1 :: post1) geo)
        region sr_uninit,
      select_region (mkXServer grab (evs ++ ButtonRelease rx2 ry2 :: post2) geo)
        region sr_uninit
    with
    | Some sel1, Some sel2 =>
        status sel1 = status sel2 /\
        region_out sel1 = region_out sel2 /\
        requests sel1 = requests sel2 /\
        stderr sel1 = stderr sel2
    | _, _ => False
    end.
Proof.
  intros evs post1 post2 rx1 ry1 rx2 ry2 grab geo region sr_uninit Hevs.
  destruct (Z.eqb_spec grab GrabSuccess) as [->|Hgrab].
  - destruct (until_release_at evs post1 rx1 ry1 Hevs) as (Hrel1 & Hun1 & _).
    destruct (until_release_at evs post2 rx2 ry2 Hevs) as (Hrel2 & Hun2 & _).
    destruct (select_region_run_steps
                (mkXServer GrabSuccess (evs ++ ButtonRelease rx1 ry1 :: post1) geo)
                region sr_uninit eq_refl Hrel1) as (l1 & mid1 & Hrun1 & ->).
    destruct (select_region_run_steps
                (mkXServer GrabSuccess (evs ++ ButtonRelease rx2 ry2 :: post2) geo)
                region sr_uninit eq_refl Hrel2) as (l2 & mid2 & Hrun2 & ->).
    simpl events in *. rewrite Hun1 in Hrun1. rewrite Hun2 in Hrun2.
    rewrite Hrun1 in Hrun2. injection Hrun2 as <- <-.
    simpl geometry. destruct geo; simpl; auto.
  - unfold select_region. simpl grab_status.
    apply Z.eqb_neq in Hgrab. rewrite Hgrab. simpl. auto.
Qed.

Lemma select_region_ignores_release_position_witness :
  exists sel1 sel2,
    select_region
      (mkXServer GrabSuccess
         ([ButtonPress 30 40; MotionNotify 10 90] ++ ButtonRelease 10 90 :: [])
         (Some root_1920x1080)) zero_region zero_region = Some sel1 /\
    select_region
      (mkXServer GrabSuccess
         ([ButtonPress 30 40; MotionNotify 10 90]
            ++ ButtonRelease 500 600 :: [OtherEvent])
         (Some root_1920x1080)) zero_region zero_region = Some sel2 /\
    region_out sel1 = region_out sel2.
Proof.
  pose proof (select_region_ignores_release_position
                [ButtonPress 30 40; MotionNotify 10 90] [] [OtherEvent]
                10 90 500 600 GrabSuccess (Some root_1920x1080)
                zero_region zero_region eq_refl) as H.
  destruct (select_region _ _ _) as [sel1|]; [|contradiction].
  destruct (select_region _ _ _) as [sel2|]; [|contradiction].
  exists sel1, sel2. split; [reflexivity|]. split; [reflexivity|].
  exact (proj1 (proj2 H)).
Defined.

(** X13.  Every call that got the grab and returned, with success or
    with the geometry failure, has sent the same frame of requests: cursor,
    grab and graphics context once at the start; then only rectangles and
    flushes; then the erasing rectangle, a flush, the release of the grab,
    the freeing of cursor and graphics context, the sync and the geometry
    query, once each, in this order.  On success the erasing rectangle is
    the selected one. *)
Theorem select_region_request_frame :
  forall (server : XServer) (region sr_uninit : Region) (sel : selection),
    grab_status server = GrabSuccess ->
    select_region server region sr_uninit = Some sel ->
    exists mid r,
      requests sel = setup_requests ++ mid ++ teardown_requests r /\
      forallb is_draw_or_flush mid = true /\
      (status sel = EXIT_SUCCESS -> r = geometry_of (region_out sel)).
Proof.
  intros server region sr_uninit sel Hgrab Hsel.
  pose proof (select_region_returned server region sr_uninit sel Hgrab Hsel)
    as Hrel.
  destruct (select_region_run_steps server region sr_uninit Hgrab Hrel)
    as (l & mid & Hrun & Heq).
  rewrite Heq in Hsel. injection Hsel as <-.
  exists mid, (tracked l). split; [|split].
  - destruct (geometry server); reflexivity.
  - pose proof (run_steps_requests (until_release (events server)) initial_locals)
      as H. now rewrite Hrun in H.
  - destruct (geometry server); simpl; [reflexivity|discriminate].
Qed.

Lemma select_region_request_frame_witness :
  exists sel mid,
    select_region drag_server zero_region zero_region = Some sel /\
    requests sel
    = setup_requests ++ mid ++ teardown_requests (100, 50, 200, 150) /\
    forallb is_draw_or_flush mid = true.
Proof.
  destruct (select_region drag_server zero_region zero_region) as [sel|] eqn:Hsel;
    [|discriminate Hsel].
  destruct (select_region_request_frame drag_server zero_region zero_region sel
              eq_refl Hsel) as (mid & r & Hreq & Hmid & Hr).
  exists sel, mid. split; [reflexivity|].
  vm_compute in Hsel. injection Hsel as <-.
  rewrite (Hr eq_refl) in Hreq. auto.
Defined.

(** X14.  When the root geometry cannot be read, the call fails after
    the selection: it returns the failure status with its message on
    standard error and leaves the caller's region as it was, and the
    events up to the first release have been consumed. *)
Theorem geometry_failure_is_reported :
  forall (server : XServer) (region sr_uninit : Region),
    grab_status server = GrabSuccess ->
    geometry server = None ->
    existsb is_release (events server) = true ->
    exists sel,
      select_region server region sr_uninit = Some sel /\
      status sel = EXIT_FAILURE /\
      region_out sel = region /\
      pending sel = after_release (events server) /\
      stderr sel = ("xrectsel: failed to get root window geometry"
                    ++ String "010"%char "")%string.
Proof.
  intros server region sr_uninit Hgrab Hgeo Hrel.
  destruct (select_region_run_steps server region sr_uninit Hgrab Hrel)
    as (l & mid & _ & Heq).
  rewrite Hgeo in Heq. eexists. split; [exact Heq|]. simpl. auto.
Qed.

Lemma geometry_failure_is_reported_witness :
  exists sel,
    select_region
      (mkXServer GrabSuccess [ButtonPress 3 4; ButtonRelease 3 4; OtherEvent]
         None) example_region zero_region = Some sel /\
    status sel = EXIT_FAILURE /\
    region_out sel = example_region /\
    pending sel = [OtherEvent].
Proof.
  destruct (geometry_failure_is_reported
              (mkXServer GrabSuccess
                 [ButtonPress 3 4; ButtonRelease 3 4; OtherEvent] None)
              example_region zero_region eq_refl eq_refl eq_refl)
    as (sel & Hsel & Hstatus & Hregion & Hpending & _).
  exists sel. auto.
Defined.

(** X15.  In a selection with a single press, every outline a motion
    draws is drawn a second time, by the next motion or by the final
    erase: after one rectangle of size zero at the press position, the
    rectangles drawn come in identical consecutive pairs, one pair for
    each motion between the press and the release. *)
Theorem single_drag_draws_in_pairs :
  forall (pre tail post : list XEvent) (ax ay rx ry : Z)
         (geo : option Region) (region sr_uninit : Region),
    existsb is_press pre = false -> existsb is_release pre = false ->
    existsb is_press tail = false -> existsb is_release tail = false ->
    is_int ax -> is_int ay -> Forall event_is_int tail ->
    exists sel,
      select_region
        (mkXServer GrabSuccess
           (pre ++ ButtonPress ax ay :: tail ++ ButtonRelease rx ry :: post) geo)
        region sr_uninit = Some sel /\
      draws (requests sel)
      = (ax, ay, 0, 0) ::
        flat_map (fun r => [r; r]) (map (normalized_rect ax ay) (motions tail)).
Proof.
  intros pre tail post ax ay rx ry geo region sr_uninit
         Hpre_p Hpre_r Htail_p Htail_r Hax Hay Hint.
  assert (Hevs : existsb is_release (pre ++ ButtonPress ax ay :: tail) = false).
  { rewrite existsb_app. simpl. now rewrite Hpre_r, Htail_r. }
  destruct (until_release_at _ post rx ry Hevs) as (Hrel & Hun & _).
  rewrite <- app_assoc in Hrel, Hun. simpl app in Hrel, Hun.
  destruct (select_region_run_steps
              (mkXServer GrabSuccess
                 (pre ++ ButtonPress ax ay :: tail ++ ButtonRelease rx ry :: post)
                 geo) region sr_uninit eq_refl Hrel) as (l & mid & Hrun & Heq).
  simpl events in Hrun. rewrite Hun, run_steps_app in Hrun.
  rewrite (run_steps_idle pre initial_locals eq_refl Hpre_p Hpre_r) in Hrun.
  cbn [fst snd app] in Hrun.
  destruct (run_steps_press_drag tail ax ay initial_locals
              Hax Hay Hint Htail_p Htail_r) as [_ Hdr].
  pose proof (f_equal fst Hrun) as Hl. pose proof (f_equal snd Hrun) as Hmid.
  cbn [fst snd] in Hl, Hmid. rewrite Hl, Hmid in Hdr.
  eexists. split; [exact Heq|].
  cbn [geometry]. destruct geo; cbn [requests]; now rewrite draws_requests.
Qed.

Lemma single_drag_draws_in_pairs_witness :
  exists sel,
    select_region drag_server zero_region zero_region = Some sel /\
    draws (requests sel)
    = [(300, 200, 0, 0);
       (250, 120, 50, 80); (250, 120, 50, 80);
       (100, 50, 200, 150); (100, 50, 200, 150)].
Proof.
  assert (Hint : Forall event_is_int [MotionNotify 250 120; MotionNotify 100 50]).
  { repeat constructor; unfold is_int; simpl; lia. }
  destruct (single_drag_draws_in_pairs [OtherEvent]
              [MotionNotify 250 120; MotionNotify 100 50] [] 300 200 100 50
              (Some root_1920x1080) zero_region zero_region
              eq_refl eq_refl eq_refl eq_refl
              ltac:(unfold is_int; lia) ltac:(unfold is_int; lia) Hint)
    as (sel & Hsel & Hdraws).
  exists sel. split; [exact Hsel|exact Hdraws].
Defined.

(** X16.  The selected rectangle is the one of the last drag: with a
    last press at the anchor and, after it, only motions and other events
    up to the release, the region's position and size are the normalized
    rectangle between the anchor and the last motion, or the rectangle of
    size zero at the anchor when the pointer did not move.  Earlier
    presses and drags play no part. *)
Theorem selected_rectangle_is_last_drag :
  forall (pre tail post : list XEvent) (ax ay rx ry : Z)
         (rr region sr_uninit : Region),
    existsb is_release pre = false ->
    existsb is_press tail = false -> existsb is_release tail = false ->
    is_int ax -> is_int ay -> Forall event_is_int tail ->
    exists sel,
      select_region
        (mkXServer GrabSuccess
           (pre ++ ButtonPress ax ay :: tail ++ ButtonRelease rx ry :: post)
           (Some rr))
        region sr_uninit = Some sel /\
      status sel = EXIT_SUCCESS /\
      geometry_of (region_out sel)
      = last (map (normalized_rect ax ay) (motions tail)) (ax, ay, 0, 0).
Proof.
  intros pre tail post ax ay rx ry rr region sr_uninit
         Hpre_r Htail_p Htail_r Hax Hay Hint.
  assert (Hevs : existsb is_release (pre ++ ButtonPress ax ay :: tail) = false).
  { rewrite existsb_app. simpl. now rewrite Hpre_r, Htail_r. }
  destruct (until_release_at _ post rx ry Hevs) as (Hrel & Hun & _).
  rewrite <- app_assoc in Hrel, Hun. simpl app in Hrel, Hun.
  destruct (select_region_run_steps
              (mkXServer GrabSuccess
                 (pre ++ ButtonPress ax ay :: tail ++ ButtonRelease rx ry :: post)
                 (Some rr)) region sr_uninit eq_refl Hrel)
    as (l & mid & Hrun & Heq).
  simpl events in Hrun. rewrite Hun, run_steps_app in Hrun.
  destruct (run_steps_press_drag tail ax ay (fst (run_steps pre initial_locals))
              Hax Hay Hint Htail_p Htail_r) as [Htr _].
  pose proof (f_equal fst Hrun) as Hl. cbn [fst] in Hl. rewrite Hl in Htr.
  eexists. split; [exact Heq|]. split; [reflexivity|]. exact Htr.
Qed.

Lemma selected_rectangle_is_last_drag_witness :
  exists sel,
    select_region
      (mkXServer GrabSuccess
         ([ButtonPress 10 10; MotionNotify 20 20]
            ++ ButtonPress 300 200
            :: [MotionNotify 250 120; OtherEvent; MotionNotify 100 50]
            ++ ButtonRelease 0 0 :: [])
         (Some root_1920x1080))
      zero_region zero_region = Some sel /\
    geometry_of (region_out sel) = (100, 50, 200, 150).
Proof.
  assert (Hint : Forall event_is_int
                   [MotionNotify 250 120; OtherEvent; MotionNotify 100 50]).
  { repeat constructor; unfold is_int; simpl; lia. }
  destruct (selected_rectangle_is_last_drag
              [ButtonPress 10 10; MotionNotify 20 20]
              [MotionNotify 250 120; OtherEvent; MotionNotify 100 50] []
              300 200 0 0 root_1920x1080 zero_region zero_region
              eq_refl eq_refl eq_refl
              ltac:(unfold is_int; lia) ltac:(unfold is_int; lia) Hint)
    as (sel & Hsel & _ & Hgeo).
  exists sel. split; [exact Hsel|exact Hgeo].
Defined.

(** X17.  A release that no press precedes still ends the selection
    with success: the region has position and size zero, its offsets from
    the right and bottom are the root's width and height as an [int], and
    the only rectangle drawn is one of size zero at the origin. *)
Theorem release_without_press_selects_origin :
  forall (pre post : list XEvent) (rx ry : Z) (rr region sr_uninit : Region),
    existsb is_press pre = false -> existsb is_release pre = false ->
    exists sel,
      select_region
        (mkXServer GrabSuccess (pre ++ ButtonRelease rx ry :: post) (Some rr))
        region sr_uninit = Some sel /\
      status sel = EXIT_SUCCESS /\
      geometry_of (region_out sel) = (0, 0, 0, 0) /\
      X (region_out sel) = wrap_int (w rr) /\
      Y (region_out sel) = wrap_int (h rr) /\
      draws (requests sel) = [(0, 0, 0, 0)].
Proof.
  intros pre post rx ry rr region sr_uninit Hpre_p Hpre_r.
  destruct (until_release_at pre post rx ry Hpre_r) as (Hrel & Hun & _).
  destruct (select_region_run_steps
              (mkXServer GrabSuccess (pre ++ ButtonRelease rx ry :: post)
                 (Some rr)) region sr_uninit eq_refl Hrel)
    as (l & mid & Hrun & Heq).
  simpl events in Hrun. rewrite Hun in Hrun.
  rewrite (run_steps_idle pre initial_locals eq_refl Hpre_p Hpre_r) in Hrun.
  injection Hrun as <- <-.
  eexists. split; [exact Heq|]. simpl.
  rewrite !Z.sub_0_r. repeat split.
Qed.

Lemma release_without_press_selects_origin_witness :
  exists sel,
    select_region
      (mkXServer GrabSuccess
         ([MotionNotify 5 5; OtherEvent] ++ ButtonRelease 40 40 :: [])
         (Some root_1920x1080))
      zero_region zero_region = Some sel /\
    geometry_of (region_out sel) = (0, 0, 0, 0) /\
    X (region_out sel) = 1920 /\ Y (region_out sel) = 1080.
Proof.
  destruct (release_without_press_selects_origin
              [MotionNotify 5 5; OtherEvent] [] 40 40
              root_1920x1080 zero_region zero_region eq_refl eq_refl)
    as (sel & Hsel & _ & Hgeo & HX & HY & _).
  exists sel. split; [exact Hsel|]. split; [exact Hgeo|].
  split; [exact HX|exact HY].
Defined.

(** X18.  Of the root geometry only the width, height, border width and
    depth reach the returned region: border width and depth are copied,
    and the region's window member is never assigned, so it holds what the
    automatic variable happened to hold. *)
Theorem region_takes_border_and_depth_from_root :
  forall (server : XServer) (region sr_uninit rr : Region) (sel : selection),
    grab_status server = GrabSuccess ->
    geometry server = Some rr ->
    select_region server region sr_uninit = Some sel ->
    b (region_out sel) = b rr /\
    d (region_out sel) = d rr /\
    root (region_out sel) = root sr_uninit /\
    select_region
      (mkXServer (grab_status server) (events server)
         (Some (mkRegion 0 0 0 0 0 (w rr) (h rr) (b rr) (d rr))))
      region sr_uninit = Some sel.
Proof.
  intros server region sr_uninit rr sel Hgrab Hgeo Hsel.
  pose proof (select_region_returned server region sr_uninit sel Hgrab Hsel)
    as Hrel.
  destruct (select_region_run_steps server region sr_uninit Hgrab Hrel)
    as (l & mid & Hrun & Heq).
  destruct (select_region_run_steps
              (mkXServer (grab_status server) (events server)
                 (Some (mkRegion 0 0 0 0 0 (w rr) (h rr) (b rr) (d rr))))
              region sr_uninit Hgrab Hrel) as (l' & mid' & Hrun' & Heq').
  cbn [events geometry] in Hrun', Heq'. rewrite Hrun in Hrun'.
  pose proof (f_equal fst Hrun') as Hl. pose proof (f_equal snd Hrun') as Hmid.
  cbn [fst snd] in Hl, Hmid. subst l' mid'.
  rewrite Hgeo in Heq. rewrite Heq in Hsel. injection Hsel as <-.
  cbn [region_out b d root]. repeat split. exact Heq'.
Qed.

Lemma region_takes_border_and_depth_from_root_witness :
  exists sel,
    select_region drag_server zero_region example_region = Some sel /\
    b (region_out sel) = 0 /\ d (region_out sel) = 24 /\
    root (region_out sel) = 0.
Proof.
  destruct (select_region drag_server zero_region example_region) as [sel|] eqn:Hsel;
    [|discriminate Hsel].
  destruct (region_takes_border_and_depth_from_root drag_server zero_region
              example_region root_1920x1080 sel eq_refl eq_refl Hsel)
    as (Hb & Hd & Hroot & _).
  exists sel. split; [reflexivity|]. split; [exact Hb|]. split; [exact Hd|exact Hroot].
Defined.

(** * The program *)

Local Close Scope list_scope.
Local Open Scope string_scope.

Section MainFacts.



(** The default format prints width, height, left and top. *)
Lemma print_region_attr_default (region : Region) :
  print_region_attr default_fmt region = Some (default_text region, Returned 0).
Proof.
  rewrite print_region_attr_from. unfold default_fmt, default_text.
  cbn [append].
  rewrite print_from_directive by discriminate.
  rewrite print_from_literal by discriminate.
  rewrite print_from_directive by discriminate.
  rewrite print_from_literal by discriminate.
  rewrite print_from_directive by discriminate.
  rewrite print_from_literal by discriminate.
  rewrite print_from_directive by discriminate.
  rewrite print_from_literal by discriminate.
  rewrite print_from_end.
  change (print_field "w" region 0) with (printf_u (w region)).
  change (print_field "h" region 0) with (printf_u (h region)).
  change (print_field "x" region 0) with (printf_i (x region)).
  change (print_field "y" region 0) with (printf_i (y region)).
  cbn [append]. now rewrite !append_assoc.
Qed.

End MainFacts.



(** X20.  Started without a format argument, the program prints the
    selected region as width, "x", height, "+", left offset, "+", top
    offset and a newline, in decimal, and ends with the success status,
    whenever the display opens, the grab is granted, a release is
    delivered and the root geometry is reported. *)
Theorem main_prints_default_geometry :
  forall (env : environment) (server : XServer) (sr sr_uninit rr : Region),
    display env = Some server ->
    (List.length (argv env) <= 1)%nat ->
    grab_status server = GrabSuccess ->
    geometry server = Some rr ->
    existsb is_release (events server) = true ->
    exists sel,
      select_region server sr sr_uninit = Some sel /\
      main env sr sr_uninit
      = Some (mkProcess (Some EXIT_SUCCESS) (default_text (region_out sel)) ""
                true (requests sel)).
Proof.
  intros env server sr sr_uninit rr Hdisplay Hargc Hgrab Hgeo Hrel.
  destruct (select_region_run_steps server sr sr_uninit Hgrab Hrel)
    as (l & mid & _ & Hsel).
  rewrite Hgeo in Hsel. eexists. split; [exact Hsel|].
  unfold main. rewrite Hdisplay, Hsel. cbn [status region_out stderr requests].
  change (negb (EXIT_SUCCESS =? EXIT_SUCCESS)%Z) with false. cbv iota.
  unfold format_of.
  replace (1 <? Z.of_nat (List.length (argv env)))%Z with false
    by (symmetry; apply Z.ltb_ge; lia).
  now rewrite print_region_attr_default.
Qed.

Lemma main_prints_default_geometry_witness :
  exists p,
    main (mkEnvironment (Some drag_server) (Some ":0") ["xrectsel"])
      zero_region zero_region = Some p /\
    exit_status p = Some EXIT_SUCCESS /\
    proc_stdout p = "200x150+100+50" ++ String "010"%char "".
Proof.
  destruct (main_prints_default_geometry
              (mkEnvironment (Some drag_server) (Some ":0") ["xrectsel"])
              drag_server zero_region zero_region root_1920x1080
              eq_refl ltac:(simpl; lia) eq_refl eq_refl eq_refl)
    as (sel & Hsel & Hmain).
  eexists. split; [exact Hmain|]. split; [reflexivity|].
  vm_compute in Hsel. injection Hsel as <-. reflexivity.
Defined.

(** X21.  When the selection fails the program writes nothing to
    standard output, closes the display and ends with the failure status,
    and standard error holds two lines, the one of [select_region] and
    "failed to select a rectangular region": for a refused grab no event
    is needed, for a failed geometry query the drag has taken place. *)
Theorem main_reports_selection_failure :
  forall (env : environment) (server : XServer) (sr sr_uninit : Region),
    display env = Some server ->
    (grab_status server <> GrabSuccess ->
     main env sr sr_uninit
     = Some (mkProcess (Some EXIT_FAILURE) ""
               ("xrectsel: failed to grab pointer" ++ String "010"%char
                  ("xrectsel: failed to select a rectangular region"
                   ++ String "010"%char ""))
               true [XCreateFontCursor XC_tcross; XGrabPointer])) /\
    (grab_status server = GrabSuccess ->
     geometry server = None ->
     existsb is_release (events server) = true ->
     exists p,
       main env sr sr_uninit = Some p /\
       exit_status p = Some EXIT_FAILURE /\
       proc_stdout p = "" /\
       display_closed p = true /\
       proc_stderr p
       = "xrectsel: failed to get root window geometry" ++ String "010"%char
           ("xrectsel: failed to select a rectangular region"
            ++ String "010"%char "")).
Proof.
  intros env server sr sr_uninit Hdisplay. split.
  - intros Hgrab. unfold main, select_region. rewrite Hdisplay.
    apply Z.eqb_neq in Hgrab. rewrite Hgrab. reflexivity.
  - intros Hgrab Hgeo Hrel.
    destruct (select_region_run_steps server sr sr_uninit Hgrab Hrel)
      as (l & mid & _ & Hsel).
    rewrite Hgeo in Hsel. unfold main. rewrite Hdisplay, Hsel.
    cbn [status]. change (negb (EXIT_FAILURE =? EXIT_SUCCESS)%Z) with true.
    cbv iota. eexists. split; [reflexivity|]. repeat split.
Qed.

Lemma main_reports_selection_failure_witness :
  main (mkEnvironment (Some busy_server) None ["xrectsel"; "%w"])
    zero_region zero_region
  = Some (mkProcess (Some EXIT_FAILURE) ""
            ("xrectsel: failed to grab pointer" ++ String "010"%char
               ("xrectsel: failed to select a rectangular region"
                ++ String "010"%char ""))
            true [XCreateFontCursor XC_tcross; XGrabPointer]).
Proof.
  apply (proj1 (main_reports_selection_failure
                  (mkEnvironment (Some busy_server) None ["xrectsel"; "%w"])
                  busy_server zero_region zero_region eq_refl)).
  discriminate.
Defined.
